(** * url: a thin HTTP client over a URL-transfer engine

    Shallow embedding of [url.cxx] (module version 0.0.3), of the older
    [url.cpp] (module version 0.0.1) and of the [response_t] combinators
    of the [url.hpp] header, with the properties of their natural-language
    specification.

    The transfer engine (libcurl) is external to the repository.  It is
    modelled as an oracle: a function from the history of the transfers
    already performed and the handle it is invoked on to what it delivers
    (header lines, body chunks), its result code and the information it
    reports afterwards.  Every theorem holds for every such oracle. *)

From Stdlib Require Import String Ascii List ZArith Lia Bool Arith.
Import ListNotations.

Local Open Scope string_scope.
Local Open Scope list_scope.

(* ================================================================== *)
(** * The [std::string] members the program calls *)
(* ================================================================== *)

Module StdString.

(** [s.starts_with(x)] *)
Fixpoint starts_with (x s : string) : bool :=
  match x, s with
  | EmptyString, _ => true
  | String a x', String b s' => Ascii.eqb a b && starts_with x' s'
  | String _ _, EmptyString => false
  end.

(** [s.ends_with(x)]: some tail of [s] is [x]. *)
Fixpoint ends_with (x s : string) : bool :=
  String.eqb s x ||
  match s with
  | EmptyString => false
  | String _ s' => ends_with x s'
  end.

(** [s.pop_back()], called on non-empty strings only. *)
Fixpoint pop_back (s : string) : string :=
  match s with
  | EmptyString => EmptyString
  | String _ EmptyString => EmptyString
  | String a s' => String a (pop_back s')
  end.

(** [s.rfind(x)]: the start of the last occurrence of [x] in [s];
    [None] stands for [std::string::npos]. *)
Fixpoint rfind (x s : string) : option nat :=
  match s with
  | EmptyString => if starts_with x s then Some 0 else None
  | String _ s' =>
      match rfind x s' with
      | Some i => Some (S i)
      | None => if starts_with x s then Some 0 else None
      end
  end.

(** [s.find(c, pos)]: the first index at or after [pos] that holds [c];
    [None] stands for [std::string::npos]. *)
Fixpoint find (c : ascii) (pos : nat) (s : string) : option nat :=
  match s with
  | EmptyString => None
  | String a s' =>
      match pos with
      | O => if Ascii.eqb a c then Some 0 else option_map S (find c 0 s')
      | S p => option_map S (find c p s')
      end
  end.

(** The characters of [s] from index [pos] on. *)
Fixpoint drop (pos : nat) (s : string) : string :=
  match pos, s with
  | O, _ => s
  | S p, String _ s' => drop p s'
  | S _, EmptyString => EmptyString
  end.

(** The first [n] characters of [s] (all of it when it is shorter). *)
Fixpoint take (n : nat) (s : string) : string :=
  match n, s with
  | S m, String a s' => String a (take m s')
  | _, _ => EmptyString
  end.

(** [s.substr(pos, count)]: at most [count] characters from index [pos];
    a [count] of [npos] ([None]) means all of the rest.  The member throws
    [std::out_of_range] when [pos > size()]; the program only calls it
    with [pos <= size()]. *)
Definition substr (pos : nat) (count : option nat) (s : string) : string :=
  match count with
  | Some n => take n (drop pos s)
  | None => drop pos s
  end.

(** [::tolower] in the "C" locale (the program never changes it). *)
Definition tolower (c : ascii) : ascii :=
  let n := nat_of_ascii c in
  if Nat.leb 65 n && Nat.leb n 90 then ascii_of_nat (n + 32) else c.

(** [std::ranges::transform(s, s.begin(), ::tolower)] *)
Fixpoint transform_tolower (s : string) : string :=
  match s with
  | EmptyString => EmptyString
  | String a s' => String (tolower a) (transform_tolower s')
  end.

(** [s.c_str()] as the engine reads it: the characters before the first
    NUL. *)
Fixpoint c_str (s : string) : string :=
  match s with
  | EmptyString => EmptyString
  | String a s' =>
      if Ascii.eqb a zero then EmptyString else String a (c_str s')
  end.

End StdString.

Import StdString.

(** Carriage return + line feed. *)
Definition CRLF : string := String "013"%char (String "010"%char EmptyString).

(* ================================================================== *)
(** * [response_t] *)
(* ================================================================== *)

Definition header_t := list string.

Definition form_t := list (string * string).

(** [status_code] is a [uint32_t]: a [Z] in [0, 2^32). *)
Record response_t := mk_response {
  status_code : Z;
  headers : header_t;
  body : string;
  encoding : string;
  url : string
}.

(** [response_t response;] with the default member initialisers. *)
Definition default_response : response_t :=
  {| status_code := 0; headers := []; body := ""; encoding := ""; url := "" |}.

(** [explicit operator bool() const]
    ([url.cxx] 186-191, [url.cpp] 149-154, [url.hpp] 41-45). *)
Definition to_bool (r : response_t) : bool :=
  (100 <=? status_code r)%Z && (status_code r <? 400)%Z.

(** ** [and_then] and [or_else] of [url.hpp]

    The callable may have effects of its own: it is a function on an
    ambient state [St].  [value_init] is what [R()] builds for the result
    type [R]. *)

Class ValueInit (R : Type) := value_init : R.

#[export] Instance ValueInit_Z : ValueInit Z := 0%Z.
#[export] Instance ValueInit_nat : ValueInit nat := 0.
#[export] Instance ValueInit_bool : ValueInit bool := false.
#[export] Instance ValueInit_string : ValueInit string := "".
#[export] Instance ValueInit_list (A : Type) : ValueInit (list A) := [].
#[export] Instance ValueInit_response : ValueInit response_t := default_response.

Section Combinators.
Context {St R : Type} `{ValueInit R}.

(** The [and_then] overloads differ in the reference category of [*this]
    that is handed to [f]; the value handed over is the same. *)
Definition and_then (f : response_t -> St -> R * St) (r : response_t)
  : St -> R * St :=
  fun s => if to_bool r then f r s else (value_init, s).

(** Both [return]s have one deduced type, so [f] returns a [response_t]. *)
Definition or_else (f : unit -> St -> response_t * St) (r : response_t)
  : St -> response_t * St :=
  fun s => if to_bool r then (r, s) else f tt s.

End Combinators.

(* ================================================================== *)
(** * The transfer engine as the program sees it *)
(* ================================================================== *)

(** The options the program sets on its handle. *)
Inductive CURLoption :=
| CURLOPT_URL
| CURLOPT_PROTOCOLS
| CURLOPT_FOLLOWLOCATION
| CURLOPT_FAILONERROR
| CURLOPT_USERAGENT
| CURLOPT_HTTPHEADER
| CURLOPT_CUSTOMREQUEST
| CURLOPT_POSTFIELDS
| CURLOPT_MIMEPOST
| CURLOPT_NOBODY
| CURLOPT_WRITEFUNCTION
| CURLOPT_WRITEDATA
| CURLOPT_HEADERFUNCTION.

Definition CURLoption_eq_dec (a b : CURLoption) : {a = b} + {a <> b}.
Proof. decide equality. Defined.

(** What an option holds.  [val_str] is a C string: the engine copies it,
    except for [CURLOPT_POSTFIELDS], where it keeps the pointer and reads
    the string when it performs.  [val_mime] is the pointer to a multipart
    body.  [val_dangling_str] and [val_dangling_mime] are such pointers
    once the program has destroyed the string or the multipart body they
    point to ([was] is what it held): what the engine reads through them is
    not determined by the program.  [val_header_chunk] is the pointer to
    the head of the worker's [header_chunk] list: the engine reads the list
    through it when it performs, so it sees the list as it then is.
    [val_chunk] is the pointer to the running request's [user_data]. *)
Inductive optval :=
| val_long (n : Z)
| val_str (s : string)
| val_header_chunk
| val_mime (parts : list (string * string))
| val_write_user_data
| val_header_callback
| val_chunk
| val_dangling_str (was : string)
| val_dangling_mime (was : list (string * string)).

(** The handle: what its options have held so far, the latest first.  An
    option holds what [curl_easy_setopt] last set it to, until the program
    destroys what that points to. *)
Definition CURL := list (CURLoption * optval).

Fixpoint getopt (h : CURL) (o : CURLoption) : option optval :=
  match h with
  | [] => None
  | (o', v) :: h' => if CURLoption_eq_dec o o' then Some v else getopt h' o
  end.

(** Protocol bits of [curl.h]. *)
Definition CURLPROTO_HTTP : Z := Z.shiftl 1 0.
Definition CURLPROTO_HTTPS : Z := Z.shiftl 1 1.

(** [CURLcode] values of [curl.h]. *)
Definition CURLcode := nat.
Definition CURLE_OK : CURLcode := 0.
Definition CURLE_UNSUPPORTED_PROTOCOL : CURLcode := 1.
Definition CURLE_COULDNT_RESOLVE_HOST : CURLcode := 6.
Definition CURLE_COULDNT_CONNECT : CURLcode := 7.
Definition CURLE_HTTP_RETURNED_ERROR : CURLcode := 22.
Definition CURLE_OPERATION_TIMEDOUT : CURLcode := 28.
Definition CURLE_SSL_CONNECT_ERROR : CURLcode := 35.
Definition CURLE_TOO_MANY_REDIRECTS : CURLcode := 47.

(** One invocation of a delivery callback by the engine. *)
Inductive delivery :=
| header_line (buffer : string)
| body_data (contents : string).

(** What the engine does during one [curl_easy_perform] and reports
    afterwards through [curl_easy_getinfo]. *)
Record transfer := mk_transfer {
  deliveries : list delivery;
  result : CURLcode;
  response_code : Z;
  effective_url : option string
}.

(** One performed transfer: the handle and the request header list the
    engine was invoked on, and what it did. *)
Record performed_t := mk_performed {
  on_handle : CURL;
  with_headers : list string;
  did : transfer
}.

Definition history := list performed_t.

Definition engine_t := history -> CURL -> list string -> transfer.

(* ================================================================== *)
(** * State of one worker *)
(* ================================================================== *)

(** [struct curl_thread_local]; a null [header_chunk] is the empty list. *)
Record curl_thread_local := mk_context {
  curl : CURL;
  header_chunk : list string;
  response_headers : list string
}.

(** The worker's [curl_thread_context] and the transfers it has performed. *)
Record worker := mk_worker {
  curl_thread_context : curl_thread_local;
  performed : history
}.

(** [curl_thread_local()]: a fresh handle, a null list, no header lines. *)
Definition fresh_worker : worker :=
  {| curl_thread_context :=
       {| curl := []; header_chunk := []; response_headers := [] |};
     performed := [] |}.

(** [~curl_thread_local()]: the entries of the request header list that
    [curl_slist_free_all(header_chunk)] frees. *)
Definition curl_thread_local_destructor (c : curl_thread_local)
  : list string :=
  header_chunk c.

(** [struct user_data]: [size] bytes at [memory] (and a terminating NUL). *)
Record user_data := mk_user_data {
  memory : string;
  size : nat
}.

Definition new_user_data : user_data := {| memory := ""; size := 0 |}.

(** ** State passing *)

Definition M (A : Type) : Type := worker -> A * worker.

Definition ret {A} (a : A) : M A := fun w => (a, w).

Definition bind {A B} (c : M A) (k : A -> M B) : M B :=
  fun w => let (a, w') := c w in k a w'.

Declare Scope m_scope.
Delimit Scope m_scope with M.
Notation "x <- c ;; k" := (bind c (fun x => k))
  (at level 61, c at next level, right associativity) : m_scope.
Notation "c ;; k" := (bind c (fun _ => k))
  (at level 61, right associativity) : m_scope.
Local Open Scope m_scope.

Definition modify_context (f : curl_thread_local -> curl_thread_local)
  : M unit :=
  fun w => (tt, {| curl_thread_context := f (curl_thread_context w);
                   performed := performed w |}).

Definition curl_easy_setopt (o : CURLoption) (v : optval) : M unit :=
  modify_context (fun c =>
    {| curl := (o, v) :: curl c;
       header_chunk := header_chunk c;
       response_headers := response_headers c |}).

(** The end of the lifetime of the local object that option [o] points to
    (a [std::string] or a [curl_mime]): the pointer stays on the handle and
    dangles. *)
Definition destroy_target (o : CURLoption) : M unit :=
  modify_context (fun c =>
    {| curl :=
         match getopt (curl c) o with
         | Some (val_str s) => (o, val_dangling_str s) :: curl c
         | Some (val_mime parts) => (o, val_dangling_mime parts) :: curl c
         | _ => curl c
         end;
       header_chunk := header_chunk c;
       response_headers := response_headers c |}).

(** [header_chunk = curl_slist_append(header_chunk, s)] *)
Definition curl_slist_append (s : string) : M unit :=
  modify_context (fun c =>
    {| curl := curl c;
       header_chunk := header_chunk c ++ [s];
       response_headers := response_headers c |}).

Definition set_response_headers (l : list string) : M unit :=
  modify_context (fun c =>
    {| curl := curl c;
       header_chunk := header_chunk c;
       response_headers := l |}).

Fixpoint for_each {A} (l : list A) (f : A -> M unit) : M unit :=
  match l with
  | [] => ret tt
  | x :: l' => f x ;; for_each l' f
  end.

(** The request header list the engine reads through [CURLOPT_HTTPHEADER]. *)
Definition attached_headers (c : curl_thread_local) : list string :=
  match getopt (curl c) CURLOPT_HTTPHEADER with
  | Some val_header_chunk => header_chunk c
  | _ => []
  end.

(* ================================================================== *)
(** * The delivery callbacks ([url.cxx] 106-135, [url.cpp] 102-131) *)
(* ================================================================== *)

(** [write_user_data(contents, size, nmemb, userp)]: [contents] holds the
    [size * nmemb] delivered bytes. *)
Definition write_user_data (contents : string) (size' nmemb : nat)
                           (mem : user_data) : nat * user_data :=
  let realsize := size' * nmemb in
  (realsize,
   {| memory := take (size mem) (memory mem) ++ take realsize contents;
      size := size mem + realsize |}).

(** [header_callback(buffer, size, nitems, userdata)] on the worker's
    [response_headers]. *)
Definition header_callback (buffer : string) (size' nitems : nat)
                           (response_headers : list string)
  : nat * list string :=
  let response_headers := response_headers ++ [take nitems buffer] in
  let back := last response_headers EmptyString in
  let response_headers :=
    if ends_with CRLF back
    then removelast response_headers ++ [pop_back (pop_back back)]
    else response_headers in
  (size' * nitems, response_headers).

(* ================================================================== *)
(** * Invoking the engine *)
(* ================================================================== *)

(** The engine hands a delivery to the callback installed on the handle
    ([size] is always 1); without one the delivery does not reach the
    program. *)
Definition deliver (h : CURL) (acc : list string * user_data) (d : delivery)
  : list string * user_data :=
  let (response_headers, chunk) := acc in
  match d with
  | header_line buffer =>
      match getopt h CURLOPT_HEADERFUNCTION with
      | Some val_header_callback =>
          (snd (header_callback buffer 1 (String.length buffer)
                                response_headers), chunk)
      | _ => acc
      end
  | body_data contents =>
      match getopt h CURLOPT_WRITEFUNCTION, getopt h CURLOPT_WRITEDATA with
      | Some val_write_user_data, Some val_chunk =>
          (response_headers,
           snd (write_user_data contents 1 (String.length contents) chunk))
      | _, _ => acc
      end
  end.

(** [curl_easy_perform(curl)]; [chunk] is the [user_data] that
    [CURLOPT_WRITEDATA] points to. *)
Definition curl_easy_perform (engine : engine_t) (chunk : user_data)
  : M (CURLcode * user_data) :=
  fun w =>
    let c := curl_thread_context w in
    let t := engine (performed w) (curl c) (attached_headers c) in
    let (response_headers', chunk') :=
      fold_left (deliver (curl c)) (deliveries t) (response_headers c, chunk) in
    ((result t, chunk'),
     {| curl_thread_context :=
          {| curl := curl c;
             header_chunk := header_chunk c;
             response_headers := response_headers' |};
        performed :=
          performed w ++ [ {| on_handle := curl c;
                              with_headers := attached_headers c;
                              did := t |} ] |}).

(** [curl_easy_getinfo] reads what the latest transfer reported. *)
Definition curl_easy_getinfo {A} (info : transfer -> A) (none : A) : M A :=
  fun w =>
    (match rev (performed w) with
     | p :: _ => info (did p)
     | [] => none
     end, w).

(** [x = std::move(curl_thread_context.response_headers)]: the lines go
    to [x] and the moved-from vector is left empty. *)
Definition move_response_headers : M (list string) :=
  fun w => let (_, w') := set_response_headers [] w in
           (response_headers (curl_thread_context w), w').

(** Lines 249-253 of [url.cxx] (198-202 of [url.cpp]), on the header line
    [content_type] that was found; [None] leaves [encoding] as it is. *)
Definition charset_of (content_type : string) : option string :=
  match rfind "charset=" content_type with
  | Some first =>
      let last := find ";"%char first content_type in
      Some (substr (first + 8) last content_type)
  | None => None
  end.

(** A [long] stored through a pointer to the [uint32_t] [status_code]. *)
Definition to_uint32 (n : Z) : Z := n mod 2 ^ 32.

(* ================================================================== *)
(** * [url.cxx] *)
(* ================================================================== *)

Module Url_cxx.
Section Program.

(** [curl_url_set] with [CURLU_DEFAULT_SCHEME | CURLU_URLENCODE] followed
    by [curl_url_get]: [None] when the parser rejects the input. *)
Variable curl_url_set : string -> option string.
Variable engine : engine_t.

Definition encode_url (u : string) : string :=
  let url_str := u in
  match curl_url_set (c_str url_str) with
  | Some encoded_url => encoded_url
  | None => url_str
  end.

Definition set_url_options (u : string) : M unit :=
  let url_str := encode_url u in
  curl_easy_setopt CURLOPT_URL (val_str (c_str url_str)) ;;
  curl_easy_setopt CURLOPT_PROTOCOLS
                   (val_long (Z.lor CURLPROTO_HTTP CURLPROTO_HTTPS)) ;;
  curl_easy_setopt CURLOPT_FOLLOWLOCATION (val_long 1) ;;
  curl_easy_setopt CURLOPT_FAILONERROR (val_long 1).

Definition set_headers (hs : header_t) : M unit :=
  curl_easy_setopt CURLOPT_USERAGENT (val_str "libcurl-agent/1.0") ;;
  match hs with
  | [] => ret tt
  | _ =>
      for_each hs (fun header => curl_slist_append (c_str header)) ;;
      curl_easy_setopt CURLOPT_HTTPHEADER val_header_chunk
  end.

(** The lambda handed to [find_if]. *)
Definition is_content_type (header : string) : bool :=
  let lower := transform_tolower header in
  starts_with "content-type:" lower.

Definition request : M response_t :=
  curl_easy_setopt CURLOPT_WRITEFUNCTION val_write_user_data ;;
  let chunk := new_user_data in
  curl_easy_setopt CURLOPT_WRITEDATA val_chunk ;;
  set_response_headers [] ;;
  curl_easy_setopt CURLOPT_HEADERFUNCTION val_header_callback ;;
  let response := default_response in
  res <- curl_easy_perform engine chunk ;;
  let (curl_res, chunk) := res : CURLcode * user_data in
  if Nat.eqb curl_res CURLE_OK || Nat.eqb curl_res CURLE_HTTP_RETURNED_ERROR
  then
    code <- curl_easy_getinfo response_code 0%Z ;;
    moved <- move_response_headers ;;
    effective <- curl_easy_getinfo effective_url None ;;
    ret {| status_code := to_uint32 code;
           headers := moved;
           body := take (size chunk) (memory chunk);
           encoding :=
             match List.find is_content_type moved with
             | Some content_type =>
                 match charset_of content_type with
                 | Some e => e
                 | None => encoding response
                 end
             | None => encoding response
             end;
           url :=
             match effective with
             | Some e => e
             | None => url response
             end |}
  else ret response.

Definition update (u : string) (method : string) (body' : string)
                  (hs : header_t) : M response_t :=
  set_url_options u ;;
  curl_easy_setopt CURLOPT_CUSTOMREQUEST (val_str method) ;;
  set_headers hs ;;
  match body' with
  | EmptyString => ret tt
  | _ =>
      let body_str := body' in
      curl_easy_setopt CURLOPT_POSTFIELDS (val_str (c_str body_str)) ;;
      (* [body_str] is local to the block of the [if] *)
      destroy_target CURLOPT_POSTFIELDS
  end ;;
  request.

Definition del (u : string) (body' : string) (hs : header_t) : M response_t :=
  update u "DELETE" body' hs.

Definition get (u : string) (hs : header_t) : M response_t :=
  set_url_options u ;;
  set_headers hs ;;
  request.

Definition head (u : string) (hs : header_t) : M response_t :=
  set_url_options u ;;
  curl_easy_setopt CURLOPT_NOBODY (val_long 1) ;;
  set_headers hs ;;
  request.

Definition patch (u : string) (body' : string) (hs : header_t)
  : M response_t :=
  update u "PATCH" body' hs.

Definition post (u : string) (body' : string) (hs : header_t)
  : M response_t :=
  set_url_options u ;;
  set_headers hs ;;
  let body_str := body' in
  curl_easy_setopt CURLOPT_POSTFIELDS (val_str (c_str body_str)) ;;
  response <- request ;;
  (* [body_str] is destroyed when [post] returns *)
  destroy_target CURLOPT_POSTFIELDS ;;
  ret response.

(** [curl_mime_name] and [curl_mime_data] copy C strings; the deleter of
    [mime] runs [curl_mime_free] when [post] returns. *)
Definition post_form (u : string) (form : form_t) (hs : header_t)
  : M response_t :=
  set_url_options u ;;
  set_headers hs ;;
  let mime := map (fun field => (c_str (fst field), c_str (snd field))) form in
  curl_easy_setopt CURLOPT_MIMEPOST (val_mime mime) ;;
  response <- request ;;
  destroy_target CURLOPT_MIMEPOST ;;
  ret response.

Definition put (u : string) (body' : string) (hs : header_t) : M response_t :=
  update u "PUT" body' hs.

(** The public operations with their arguments. *)
Inductive operation :=
| op_del (u body' : string) (hs : header_t)
| op_get (u : string) (hs : header_t)
| op_head (u : string) (hs : header_t)
| op_patch (u body' : string) (hs : header_t)
| op_post (u body' : string) (hs : header_t)
| op_post_form (u : string) (form : form_t) (hs : header_t)
| op_put (u body' : string) (hs : header_t).

Definition call (op : operation) : M response_t :=
  match op with
  | op_del u b hs => del u b hs
  | op_get u hs => get u hs
  | op_head u hs => head u hs
  | op_patch u b hs => patch u b hs
  | op_post u b hs => post u b hs
  | op_post_form u f hs => post_form u f hs
  | op_put u b hs => put u b hs
  end.

End Program.
End Url_cxx.

(* ================================================================== *)
(** * [url.cpp] *)
(* ================================================================== *)

Module Url_cpp.
Section Program.

Variable engine : engine_t.

Definition get (u : string) (hs : header_t) : M response_t :=
  let url_str := u in
  curl_easy_setopt CURLOPT_URL (val_str (c_str url_str)) ;;
  curl_easy_setopt CURLOPT_FOLLOWLOCATION (val_long 1) ;;
  curl_easy_setopt CURLOPT_FAILONERROR (val_long 1) ;;
  curl_easy_setopt CURLOPT_USERAGENT (val_str "libcurl-agent/1.0") ;;
  match hs with
  | [] => ret tt
  | _ =>
      for_each hs (fun header => curl_slist_append (c_str header)) ;;
      curl_easy_setopt CURLOPT_HTTPHEADER val_header_chunk
  end ;;
  let chunk := new_user_data in
  curl_easy_setopt CURLOPT_WRITEFUNCTION val_write_user_data ;;
  curl_easy_setopt CURLOPT_WRITEDATA val_chunk ;;
  set_response_headers [] ;;
  curl_easy_setopt CURLOPT_HEADERFUNCTION val_header_callback ;;
  let res := default_response in
  performed' <- curl_easy_perform engine chunk ;;
  let (curl_res, chunk) := performed' : CURLcode * user_data in
  if Nat.eqb curl_res CURLE_OK || Nat.eqb curl_res CURLE_HTTP_RETURNED_ERROR
  then
    code <- curl_easy_getinfo response_code 0%Z ;;
    moved <- move_response_headers ;;
    effective <- curl_easy_getinfo effective_url None ;;
    ret {| status_code := to_uint32 code;
           headers := moved;
           body := take (size chunk) (memory chunk);
           encoding :=
             match List.find (starts_with "content-type:") moved with
             | Some content_type =>
                 match charset_of content_type with
                 | Some e => e
                 | None => encoding res
                 end
             | None => encoding res
             end;
           url :=
             match effective with
             | Some e => e
             | None => url res
             end |}
  else ret res.

End Program.
End Url_cpp.

(* ================================================================== *)
(** * Vocabulary of the properties *)
(* ================================================================== *)

(** ** Deliveries *)

(** How a delivered line is kept: without its final CRLF when it has one,
    and as it is otherwise. *)
Definition stored_as (line entry : string) : Prop :=
  line = (entry ++ CRLF)%string \/
  ((forall p, line <> (p ++ CRLF)%string) /\ entry = line).

(** The callback invoked once per element of [calls], each a
    [(buffer, size, nitems)]. *)
Definition header_callbacks (calls : list (string * nat * nat))
                            (response_headers : list string) : list string :=
  fold_left
    (fun acc call =>
       let '(buffer, size', nitems) := call in
       snd (header_callback buffer size' nitems acc))
    calls response_headers.

(** The header lines and the body chunks among the deliveries, in order. *)
Fixpoint header_lines (ds : list delivery) : list string :=
  match ds with
  | [] => []
  | header_line buffer :: ds' => buffer :: header_lines ds'
  | body_data _ :: ds' => header_lines ds'
  end.

Fixpoint body_chunks (ds : list delivery) : list string :=
  match ds with
  | [] => []
  | header_line _ :: ds' => body_chunks ds'
  | body_data contents :: ds' => contents :: body_chunks ds'
  end.

(** The chunks one after the other. *)
Definition join (chunks : list string) : string :=
  fold_right String.append "" chunks.

(** ** One request in closed form *)

(** The test on the result of [curl_easy_perform]. *)
Definition inspectable (c : CURLcode) : bool :=
  Nat.eqb c CURLE_OK || Nat.eqb c CURLE_HTTP_RETURNED_ERROR.

(** The handle once the request has installed its callbacks. *)
Definition ready (h : CURL) : CURL :=
  (CURLOPT_HEADERFUNCTION, val_header_callback)
    :: (CURLOPT_WRITEDATA, val_chunk)
    :: (CURLOPT_WRITEFUNCTION, val_write_user_data)
    :: h.

(** The response built from an inspectable transfer, the header lines
    accumulated and the body buffer; [is_ct] is the test handed to
    [find_if]. *)
Definition assemble (is_ct : string -> bool) (t : transfer)
                    (hs : list string) (chunk : user_data) : response_t :=
  {| status_code := to_uint32 (response_code t);
     headers := hs;
     body := take (size chunk) (memory chunk);
     encoding :=
       match List.find is_ct hs with
       | Some content_type =>
           match charset_of content_type with
           | Some e => e
           | None => ""
           end
       | None => ""
       end;
     url :=
       match effective_url t with
       | Some e => e
       | None => ""
       end |}.

(** The transfer a request started on worker [w] performs. *)
Definition transfer_on (engine : engine_t) (w : worker) : performed_t :=
  let c := curl_thread_context w in
  {| on_handle := ready (curl c);
     with_headers := attached_headers c;
     did := engine (performed w) (ready (curl c)) (attached_headers c) |}.

(** What the callbacks have accumulated when the transfer is over. *)
Definition received (p : performed_t) : list string * user_data :=
  fold_left (deliver (on_handle p)) (deliveries (did p)) ([], new_user_data).

(** Response and worker after a request started on worker [w]. *)
Definition outcome (is_ct : string -> bool) (engine : engine_t) (w : worker)
  : response_t * worker :=
  let c := curl_thread_context w in
  let p := transfer_on engine w in
  let ok := inspectable (result (did p)) in
  (if ok
   then assemble is_ct (did p) (fst (received p)) (snd (received p))
   else default_response,
   {| curl_thread_context :=
        {| curl := on_handle p;
           header_chunk := header_chunk c;
           response_headers := if ok then [] else fst (received p) |};
      performed := performed w ++ [p] |}).

(** The worker with [opts] set on its handle, the latest first, and
    [lines] appended to its request header list. *)
Definition configured (opts : CURL) (lines : list string) (w : worker)
  : worker :=
  let c := curl_thread_context w in
  {| curl_thread_context :=
       {| curl := opts ++ curl c;
          header_chunk := header_chunk c ++ lines;
          response_headers := response_headers c |};
     performed := performed w |}.

(** Response and worker of a call that, after its request gave [x], left
    [dangling] on the handle. *)
Definition after_return (dangling : CURL) (x : response_t * worker)
  : response_t * worker :=
  let c := curl_thread_context (snd x) in
  (fst x,
   {| curl_thread_context :=
        {| curl := dangling ++ curl c;
           header_chunk := header_chunk c;
           response_headers := response_headers c |};
      performed := performed (snd x) |}).

(** The options that [set_headers] sets, the latest first. *)
Definition header_options (hs : header_t) : CURL :=
  match hs with
  | [] => []
  | _ => [(CURLOPT_HTTPHEADER, val_header_chunk)]
  end ++ [(CURLOPT_USERAGENT, val_str "libcurl-agent/1.0")].

(** ** The public operations of [url.cxx] as settings of options *)

Module Url_cxx_spec.
Import Url_cxx.
Section Spec.

Variable curl_url_set : string -> option string.
Variable engine : engine_t.

(** The options that [set_url_options] sets, the latest first. *)
Definition url_options (u : string) : CURL :=
  [ (CURLOPT_FAILONERROR, val_long 1);
    (CURLOPT_FOLLOWLOCATION, val_long 1);
    (CURLOPT_PROTOCOLS, val_long (Z.lor CURLPROTO_HTTP CURLPROTO_HTTPS));
    (CURLOPT_URL, val_str (c_str (encode_url curl_url_set u))) ].

(** What [update] does to [CURLOPT_POSTFIELDS] for a body: set to the
    body and left dangling at once, the latest first. *)
Definition body_options (body' : string) : CURL :=
  match body' with
  | EmptyString => []
  | _ => [(CURLOPT_POSTFIELDS, val_dangling_str (c_str body'));
          (CURLOPT_POSTFIELDS, val_str (c_str body'))]
  end.

Definition update_options (u method body' : string) (hs : header_t) : CURL :=
  body_options body' ++ header_options hs
    ++ [(CURLOPT_CUSTOMREQUEST, val_str method)] ++ url_options u.

(** What a public operation makes the options hold before it calls
    [request], the latest first. *)
Definition options_of (op : operation) : CURL :=
  match op with
  | op_del u b hs => update_options u "DELETE" b hs
  | op_get u hs => header_options hs ++ url_options u
  | op_head u hs =>
      header_options hs ++ [(CURLOPT_NOBODY, val_long 1)] ++ url_options u
  | op_patch u b hs => update_options u "PATCH" b hs
  | op_post u b hs =>
      [(CURLOPT_POSTFIELDS, val_str (c_str b))]
        ++ header_options hs ++ url_options u
  | op_post_form u f hs =>
      [(CURLOPT_MIMEPOST,
        val_mime (map (fun field => (c_str (fst field), c_str (snd field))) f))]
        ++ header_options hs ++ url_options u
  | op_put u b hs => update_options u "PUT" b hs
  end.

(** What a public operation leaves dangling on the handle when it
    returns. *)
Definition released (op : operation) : CURL :=
  match op with
  | op_post _ b _ => [(CURLOPT_POSTFIELDS, val_dangling_str (c_str b))]
  | op_post_form _ f _ =>
      [(CURLOPT_MIMEPOST,
        val_dangling_mime
          (map (fun field => (c_str (fst field), c_str (snd field))) f))]
  | _ => []
  end.

(** The header lines and the URL handed to a public operation. *)
Definition supplied (op : operation) : header_t :=
  match op with
  | op_del _ _ hs | op_get _ hs | op_head _ hs | op_patch _ _ hs
  | op_post _ _ hs | op_post_form _ _ hs | op_put _ _ hs => hs
  end.

Definition url_of (op : operation) : string :=
  match op with
  | op_del u _ _ | op_get u _ | op_head u _ | op_patch u _ _
  | op_post u _ _ | op_post_form u _ _ | op_put u _ _ => u
  end.

Definition is_head (op : operation) : bool :=
  match op with
  | op_head _ _ => true
  | _ => false
  end.

(** The custom method an operation sets, if it sets one. *)
Definition custom_method (op : operation) : option string :=
  match op with
  | op_del _ _ _ => Some "DELETE"
  | op_patch _ _ _ => Some "PATCH"
  | op_put _ _ _ => Some "PUT"
  | _ => None
  end.

(** The payload an operation attaches with [CURLOPT_POSTFIELDS], if it
    attaches one. *)
Definition payload (op : operation) : option string :=
  match op with
  | op_post _ b _ => Some (c_str b)
  | op_del _ b _ | op_patch _ b _ | op_put _ b _ =>
      match b with
      | EmptyString => None
      | _ => Some (c_str b)
      end
  | _ => None
  end.

(** A client that calls the operations [ops] one after the other. *)
Fixpoint calls (ops : list operation) : M (list response_t) :=
  match ops with
  | [] => ret []
  | op :: ops' =>
      r <- call curl_url_set engine op ;;
      rs <- calls ops' ;;
      ret (r :: rs)
  end.

End Spec.
End Url_cxx_spec.

(** ** [get] of [url.cpp] as a setting of options *)

Module Url_cpp_spec.

(** The options that [get] of [url.cpp] sets before it installs the
    callbacks, the latest first. *)
Definition options_of (u : string) (hs : header_t) : CURL :=
  header_options hs ++
  [ (CURLOPT_FAILONERROR, val_long 1);
    (CURLOPT_FOLLOWLOCATION, val_long 1);
    (CURLOPT_URL, val_str (c_str u)) ].

End Url_cpp_spec.

(** ** What a call does to the worker and what it returns *)

(** The sentinel for "no response was obtained". *)
Definition sentinel (r : response_t) : Prop :=
  status_code r = 0%Z /\ headers r = [] /\ body r = "" /\
  encoding r = "" /\ url r = "".

(** A call that took the worker from [before] to [snd after] performed one
    transfer, and its response [fst after] is the sentinel unless the
    engine reported clean success or the flagged HTTP error. *)
Definition failure_gives_sentinel (before : worker)
                                  (after : response_t * worker) : Prop :=
  exists p,
    performed (snd after) = performed before ++ [p] /\
    (result (did p) <> CURLE_OK ->
     result (did p) <> CURLE_HTTP_RETURNED_ERROR ->
     sentinel (fst after)) /\
    (~ sentinel (fst after) ->
     result (did p) = CURLE_OK \/
     result (did p) = CURLE_HTTP_RETURNED_ERROR).

(** A call that took the worker from [before] to [snd after] performed one
    transfer, and the header lines and the body of its response [fst after]
    are what the engine delivered during that transfer, and nothing else. *)
Definition only_own_deliveries (before : worker)
                               (after : response_t * worker) : Prop :=
  exists p,
    performed (snd after) = performed before ++ [p] /\
    if inspectable (result (did p))
    then Forall2 stored_as (header_lines (deliveries (did p)))
                 (headers (fst after)) /\
         body (fst after) = join (body_chunks (deliveries (did p)))
    else headers (fst after) = [] /\ body (fst after) = "".

(** The engine is invoked once, on a handle where option [o] is [v]. *)
Definition performs_with (o : CURLoption) (v : option optval)
                         (before : worker) (after : response_t * worker)
  : Prop :=
  exists p,
    performed (snd after) = performed before ++ [p] /\
    getopt (on_handle p) o = v.

Definition restricts_protocols : worker -> response_t * worker -> Prop :=
  performs_with CURLOPT_PROTOCOLS
    (Some (val_long (Z.lor CURLPROTO_HTTP CURLPROTO_HTTPS))).

(** A call handed the header lines [hs] invokes the engine once, on a
    request header list that holds exactly those lines. *)
Definition attaches_exactly (hs : header_t) (before : worker)
                            (after : response_t * worker) : Prop :=
  exists p,
    performed (snd after) = performed before ++ [p] /\
    with_headers p = map c_str hs.

(** A call handed the header lines [hs] appends them to the worker's list
    and removes nothing from it; with lines to append it invokes the engine
    on the whole list, the lines of earlier calls first, and without any
    it invokes the engine on what was attached before. *)
Definition appends_to_header_list (hs : header_t) (before : worker)
                                  (after : response_t * worker) : Prop :=
  let c := curl_thread_context before in
  exists p,
    performed (snd after) = performed before ++ [p] /\
    header_chunk (curl_thread_context (snd after))
    = header_chunk c ++ map c_str hs /\
    (hs <> [] -> with_headers p = header_chunk c ++ map c_str hs) /\
    (hs = [] -> with_headers p = attached_headers c).

(** ** The charset as the specification words it

    The characters from just after [charset=] (the occurrence the code
    looks at, the last one) up to, not including, the next semicolon, or
    to the end of the line. *)
Definition charset_as_specified (content_type : string) : option string :=
  match rfind "charset=" content_type with
  | Some first =>
      match find ";"%char first content_type with
      | Some last =>
          Some (take (last - (first + 8)) (drop (first + 8) content_type))
      | None => Some (drop (first + 8) content_type)
      end
  | None => None
  end.

(** ** Engines and URL parsers to run the program on *)

(** An engine that cannot resolve the host. *)
Definition unreachable : engine_t :=
  fun _ _ _ =>
    {| deliveries := [];
       result := CURLE_COULDNT_RESOLVE_HOST;
       response_code := 0;
       effective_url := None |}.

(** An engine that serves a page with the given header lines. *)
Definition serving (lines : list string) (page : string) : engine_t :=
  fun _ _ _ =>
    {| deliveries :=
         map (fun l => header_line (l ++ CRLF)) lines ++ [body_data page];
       result := CURLE_OK;
       response_code := 200;
       effective_url := Some "http://example.com/" |}.

(** An engine that serves a page to the first transfer of a worker and
    reports an HTTP error, flagged by [CURLOPT_FAILONERROR], to the later
    ones. *)
Definition serving_once (lines : list string) (page : string) : engine_t :=
  fun past h hs =>
    match past with
    | [] => serving lines page past h hs
    | _ =>
        {| deliveries := [header_line ("HTTP/1.1 404 Not Found" ++ CRLF);
                          header_line CRLF];
           result := CURLE_HTTP_RETURNED_ERROR;
           response_code := 404;
           effective_url := Some "http://example.com/" |}
    end.

(** A URL parser that accepts everything and one that accepts nothing. *)
Definition with_default_scheme : string -> option string :=
  fun s => Some ("http://" ++ s)%string.

Definition rejecting : string -> option string :=
  fun _ => None.

(** ** Vocabulary of the further properties *)

(** The engine is invoked once, on a handle that satisfies [P]. *)
Definition performs_on (P : CURL -> Prop) (before : worker)
                       (after : response_t * worker) : Prop :=
  exists p,
    performed (snd after) = performed before ++ [p] /\ P (on_handle p).

(** No character of [s] is NUL. *)
Definition NUL_free (s : string) : Prop :=
  forall i, String.get i s <> Some zero.

(** The body callback invoked once per element of [calls], each a
    [(contents, size, nmemb)]. *)
Definition write_user_data_calls (calls : list (string * nat * nat))
                                 (mem : user_data) : user_data :=
  fold_left
    (fun acc call =>
       let '(contents, size', nmemb) := call in
       snd (write_user_data contents size' nmemb acc))
    calls mem.

(** The bytes a call of the body callback is handed. *)
Definition delivered_bytes (call : string * nat * nat) : string :=
  let '(contents, size', nmemb) := call in take (size' * nmemb) contents.

(** The response that [request] of [url.cxx] builds from a transfer. *)
Definition response_for (p : performed_t) : response_t :=
  if inspectable (result (did p))
  then assemble Url_cxx.is_content_type (did p)
                (fst (received p)) (snd (received p))
  else default_response.

(** A call that took the worker from [before] to [snd after] performed one
    transfer; after an inspectable outcome its response [fst after] holds
    the status code and the effective URL the engine reports and what the
    engine delivered. *)
Definition populated_from_transfer (before : worker)
                                   (after : response_t * worker) : Prop :=
  exists p,
    performed (snd after) = performed before ++ [p] /\
    (inspectable (result (did p)) = true ->
     status_code (fst after) = (response_code (did p) mod 2 ^ 32)%Z /\
     url (fst after) = match effective_url (did p) with
                       | Some e => e
                       | None => ""
                       end /\
     Forall2 stored_as (header_lines (deliveries (did p)))
             (headers (fst after)) /\
     body (fst after) = join (body_chunks (deliveries (did p)))).

(** The success predicate of the response [fst after] of a call, read off
    the outcome of its transfer. *)
Definition success_follows_outcome (before : worker)
                                   (after : response_t * worker) : Prop :=
  exists p,
    performed (snd after) = performed before ++ [p] /\
    (inspectable (result (did p)) = false -> to_bool (fst after) = false) /\
    (inspectable (result (did p)) = true ->
     (0 <= response_code (did p) < 2 ^ 32)%Z ->
     (to_bool (fst after) = true
      <-> (100 <= response_code (did p) < 400)%Z)).

(** The handle [put], [patch] and [del] invoke the engine on: the custom
    method is [method]; with a non-empty body the payload pointer dangles,
    the string that held the body being destroyed already, and with an
    empty body the payload is what it was before the call. *)
Definition update_handle (method body' : string) (before h : CURL) : Prop :=
  getopt h CURLOPT_CUSTOMREQUEST = Some (val_str method) /\
  getopt h CURLOPT_POSTFIELDS
  = match body' with
    | EmptyString => getopt before CURLOPT_POSTFIELDS
    | _ => Some (val_dangling_str (c_str body'))
    end /\
  getopt h CURLOPT_NOBODY = getopt before CURLOPT_NOBODY /\
  getopt h CURLOPT_MIMEPOST = getopt before CURLOPT_MIMEPOST.

(* ================================================================== *)
(** * Properties of the string members *)
(* ================================================================== *)

Section StringFacts.

Lemma append_empty_r (s : string) : (s ++ "")%string = s.
Proof. induction s; simpl; congruence. Qed.

Lemma append_assoc (a b c : string) :
  ((a ++ b) ++ c)%string = (a ++ (b ++ c))%string.
Proof. induction a; simpl; congruence. Qed.

Lemma append_eq_empty (a b : string) :
  (a ++ b)%string = "" -> a = "" /\ b = "".
Proof. destruct a; simpl; [auto | discriminate]. Qed.

Lemma string_length_append (a b : string) :
  String.length (a ++ b) = String.length a + String.length b.
Proof. induction a; simpl; congruence. Qed.

Lemma take_length (s : string) : take (String.length s) s = s.
Proof. induction s; simpl; congruence. Qed.

(** [ends_with x s] holds exactly when [s] is some text followed by [x]. *)
Lemma ends_with_iff (x s : string) :
  ends_with x s = true <-> exists p, s = (p ++ x)%string.
Proof.
  induction s as [|a s IH]; cbn [ends_with].
  - rewrite orb_false_r, String.eqb_eq. split.
    + intros <-. now exists "".
    + intros [p Hp]. symmetry in Hp.
      apply append_eq_empty in Hp. now destruct Hp.
  - rewrite orb_true_iff, String.eqb_eq, IH. split.
    + intros [<- | [p ->]].
      * now exists "".
      * now exists (String a p).
    + intros [[|b p] Hp]; simpl in Hp.
      * now left.
      * right. injection Hp as _ ->. now exists p.
Qed.

Lemma pop_back_app (p : string) (c : ascii) :
  pop_back (p ++ String c "") = p.
Proof.
  induction p as [|a p IH]; simpl; [reflexivity|].
  rewrite IH. now destruct p.
Qed.

Lemma pop_back_twice_CRLF (p : string) :
  pop_back (pop_back (p ++ CRLF)) = p.
Proof.
  unfold CRLF.
  change (String "013" (String "010" ""))
    with (String "013" "" ++ String "010" "")%string.
  now rewrite <- append_assoc, !pop_back_app.
Qed.

Lemma get_drop (p k : nat) (s : string) :
  String.get k (drop p s) = String.get (p + k) s.
Proof.
  revert s. induction p as [|p IH]; intros [|a s]; cbn; auto.
Qed.

Lemma get_take (n k : nat) (s : string) :
  k < n -> String.get k (take n s) = String.get k s.
Proof.
  revert k s. induction n as [|n IH]; intros k s Hk; [lia|].
  destruct s as [|a s]; [reflexivity|].
  destruct k as [|k]; cbn; [reflexivity|]. apply IH. lia.
Qed.

Lemma get_take_beyond (n k : nat) (s : string) :
  n <= k -> String.get k (take n s) = None.
Proof.
  revert k s. induction n as [|n IH]; intros k s Hk.
  - now destruct s, k.
  - destruct s as [|a s]; [now destruct k|].
    destruct k as [|k]; [lia|]. cbn. apply IH. lia.
Qed.

(** [find] returns an index at or after the start that holds the
    character. *)
Lemma find_Some (c : ascii) (s : string) (pos i : nat) :
  find c pos s = Some i -> pos <= i /\ String.get i s = Some c.
Proof.
  revert pos i. induction s as [|a s IH]; intros pos i; cbn; [discriminate|].
  destruct pos as [|pos].
  - destruct (Ascii.eqb a c) eqn:E.
    + intros [= <-]. apply Ascii.eqb_eq in E. subst. split; [lia | reflexivity].
    + destruct (find c 0 s) as [j|] eqn:F; cbn; [|discriminate].
      intros [= <-]. destruct (IH 0 j F). split; [lia | assumption].
  - destruct (find c pos s) as [j|] eqn:F; cbn; [|discriminate].
    intros [= <-]. destruct (IH pos j F). split; [lia | assumption].
Qed.

(** [rfind] returns the start of an occurrence. *)
Lemma rfind_Some (x s : string) (i : nat) :
  rfind x s = Some i -> starts_with x (drop i s) = true.
Proof.
  revert i. induction s as [|a s IH]; intros i; cbn [rfind].
  - destruct (starts_with x "") eqn:E; [|discriminate].
    now intros [= <-].
  - destruct (rfind x s) as [j|] eqn:F.
    + intros [= <-]. cbn [drop]. now apply IH.
    + destruct (starts_with x (String a s)) eqn:E; [|discriminate].
      now intros [= <-].
Qed.

Lemma starts_with_get (x s : string) (k : nat) :
  starts_with x s = true -> k < String.length x ->
  String.get k s = String.get k x.
Proof.
  revert s k. induction x as [|a x IH]; intros s k; cbn; [lia|].
  destruct s as [|b s]; [discriminate|].
  intros H Hk. apply andb_true_iff in H. destruct H as [Hab Hx].
  apply Ascii.eqb_eq in Hab. subst.
  destruct k as [|k]; cbn; [reflexivity|]. apply IH; [assumption | lia].
Qed.

End StringFacts.

(* ================================================================== *)
(** * The charset the code extracts and the charset as specified *)
(* ================================================================== *)

Section Charset.

(** A semicolon found from the start of [charset=] lies after it. *)
Lemma semicolon_after_charset (ct : string) (first last : nat) :
  rfind "charset=" ct = Some first ->
  find ";"%char first ct = Some last ->
  first + 8 <= last /\ String.get last ct = Some ";"%char.
Proof.
  intros Hr Hf.
  apply rfind_Some in Hr. apply find_Some in Hf. destruct Hf as [Hle Hget].
  split; [|assumption].
  destruct (Nat.le_gt_cases (first + 8) last) as [|Hlt]; [assumption|].
  exfalso.
  assert (Hk : last - first < String.length "charset=") by (cbn; lia).
  pose proof (starts_with_get _ _ _ Hr Hk) as E.
  rewrite get_drop in E.
  replace (first + (last - first)) with last in E by lia.
  rewrite Hget in E.
  remember (last - first) as k eqn:Ek. clear - E Hk.
  do 8 (destruct k as [|k]; [discriminate E|]).
  cbn in Hk. lia.
Qed.

(** Without a semicolon after [charset=], the code extracts what the
    specification says. *)
Lemma charset_of_without_semicolon (ct : string) :
  (forall first, rfind "charset=" ct = Some first ->
                 find ";"%char first ct = None) ->
  charset_of ct = charset_as_specified ct.
Proof.
  intros H. unfold charset_of, charset_as_specified.
  destruct (rfind "charset=" ct) as [first|]; [|reflexivity].
  now rewrite (H first eq_refl).
Qed.

(** With a semicolon after [charset=], the text the code extracts goes on
    past the semicolon, where the specified text ends. *)
Lemma charset_of_with_semicolon (ct : string) (first last : nat) :
  rfind "charset=" ct = Some first ->
  find ";"%char first ct = Some last ->
  exists e e',
    charset_of ct = Some e /\ charset_as_specified ct = Some e' /\
    String.get (last - (first + 8)) e = Some ";"%char /\
    String.get (last - (first + 8)) e' = None.
Proof.
  intros Hr Hf.
  destruct (semicolon_after_charset ct first last Hr Hf) as [Hle Hget].
  unfold charset_of, charset_as_specified. rewrite Hr, Hf.
  do 2 eexists. split; [reflexivity|]. split; [reflexivity|].
  unfold substr. split.
  - rewrite get_take by lia. rewrite get_drop.
    now replace (first + 8 + (last - (first + 8))) with last by lia.
  - apply get_take_beyond. lia.
Qed.

Lemma charset_of_differs_with_semicolon (ct : string) (first last : nat) :
  rfind "charset=" ct = Some first ->
  find ";"%char first ct = Some last ->
  charset_of ct <> charset_as_specified ct.
Proof.
  intros Hr Hf E.
  destruct (charset_of_with_semicolon ct first last Hr Hf)
    as (e & e' & He & He' & Hsemi & Hnone).
  rewrite He, He' in E. injection E as ->. congruence.
Qed.

End Charset.

(* ================================================================== *)
(** * The delivery callbacks *)
(* ================================================================== *)

Section Callbacks.

Lemma header_callback_once (buffer : string) (size' nitems : nat)
                           (hs : list string) :
  exists entry,
    header_callback buffer size' nitems hs = (size' * nitems, hs ++ [entry])
    /\ stored_as (take nitems buffer) entry.
Proof.
  unfold header_callback.
  rewrite last_last, removelast_last.
  destruct (ends_with CRLF (take nitems buffer)) eqn:E.
  - apply ends_with_iff in E. destruct E as [p Hp].
    exists p. rewrite Hp, pop_back_twice_CRLF. split; [reflexivity|].
    now left.
  - exists (take nitems buffer). split; [reflexivity|].
    right. split; [|reflexivity].
    intros p Hp.
    assert (ends_with CRLF (take nitems buffer) = true)
      by (apply ends_with_iff; now exists p).
    congruence.
Qed.

Lemma write_user_data_appends (contents : string) (mem : user_data) :
  size mem = String.length (memory mem) ->
  let mem' := snd (write_user_data contents 1 (String.length contents) mem) in
  memory mem' = (memory mem ++ contents)%string /\
  size mem' = String.length (memory mem').
Proof.
  intros Hsz. unfold write_user_data. cbn [snd memory size].
  rewrite Nat.mul_1_l, Hsz, !take_length, string_length_append.
  split; reflexivity.
Qed.

(** With the callbacks of [ready] installed, the deliveries of a transfer
    end up, in order, in the header lines and in the body buffer. *)
Lemma fold_deliver_ready (h : CURL) (ds : list delivery)
                         (hs : list string) (mem : user_data) :
  size mem = String.length (memory mem) ->
  exists entries mem',
    fold_left (deliver (ready h)) ds (hs, mem) = (hs ++ entries, mem') /\
    Forall2 stored_as (header_lines ds) entries /\
    memory mem' = (memory mem ++ join (body_chunks ds))%string /\
    size mem' = String.length (memory mem').
Proof.
  revert hs mem. induction ds as [|[buffer|contents] ds IH]; intros hs mem Hsz.
  - exists [], mem. cbn. rewrite app_nil_r, append_empty_r.
    repeat split; [constructor | assumption].
  - destruct (header_callback_once buffer 1 (String.length buffer) hs)
      as (e & He & Hs).
    rewrite take_length in Hs.
    destruct (IH (hs ++ [e]) mem Hsz) as (es & mem' & Hf & Hall & Hm & Hsz').
    exists (e :: es), mem'.
    cbn [fold_left header_lines body_chunks].
    change (deliver (ready h) (hs, mem) (header_line buffer))
      with (snd (header_callback buffer 1 (String.length buffer) hs), mem).
    rewrite He. cbn [snd]. rewrite Hf, <- app_assoc.
    repeat split; [constructor|..]; assumption.
  - destruct (write_user_data_appends contents mem Hsz) as [Hm1 Hsz1].
    destruct (IH hs _ Hsz1) as (es & mem' & Hf & Hall & Hm & Hsz').
    exists es, mem'.
    cbn [fold_left header_lines body_chunks join fold_right].
    change (deliver (ready h) (hs, mem) (body_data contents))
      with (hs, snd (write_user_data contents 1 (String.length contents) mem)).
    rewrite Hf. repeat split; try assumption.
    rewrite Hm, Hm1, append_assoc. reflexivity.
Qed.

Lemma received_transfer_on (engine : engine_t) (w : worker) :
  let p := transfer_on engine w in
  Forall2 stored_as (header_lines (deliveries (did p))) (fst (received p)) /\
  take (size (snd (received p))) (memory (snd (received p)))
  = join (body_chunks (deliveries (did p))).
Proof.
  cbn zeta. unfold received, transfer_on. cbn [on_handle did].
  destruct (fold_deliver_ready (curl (curl_thread_context w))
              (deliveries (engine (performed w)
                             (ready (curl (curl_thread_context w)))
                             (attached_headers (curl_thread_context w))))
              [] new_user_data eq_refl)
    as (es & mem' & -> & Hall & Hm & Hsz).
  cbn [fst snd app]. split; [assumption|].
  rewrite Hsz, take_length, Hm. reflexivity.
Qed.

End Callbacks.

(* ================================================================== *)
(** * One request in closed form *)
(* ================================================================== *)

Lemma bind_eq {A B} (c : M A) (k : A -> M B) (w w' : worker) (a : A) :
  c w = (a, w') -> bind c k w = k a w'.
Proof. unfold bind. now intros ->. Qed.

Lemma configured_nil (w : worker) : configured [] [] w = w.
Proof.
  destruct w as [[h hc rh] past]. unfold configured; cbn.
  now rewrite app_nil_r.
Qed.

Lemma configured_configured (o1 o2 : CURL) (l1 l2 : list string)
                            (w : worker) :
  configured o2 l2 (configured o1 l1 w) = configured (o2 ++ o1) (l1 ++ l2) w.
Proof.
  destruct w as [[h hc rh] past]. unfold configured; cbn.
  now rewrite !app_assoc.
Qed.

Lemma curl_easy_setopt_configured (o : CURLoption) (v : optval) (w : worker) :
  curl_easy_setopt o v w = (tt, configured [(o, v)] [] w).
Proof.
  destruct w as [[h hc rh] past]. unfold configured; cbn.
  now rewrite app_nil_r.
Qed.

Lemma ret_configured (w : worker) : ret tt w = (tt, configured [] [] w).
Proof. now rewrite configured_nil. Qed.

Lemma for_each_curl_slist_append (hs : header_t) (w : worker) :
  for_each hs (fun header => curl_slist_append (c_str header)) w
  = (tt, configured [] (map c_str hs) w).
Proof.
  revert w. induction hs as [|x hs IH]; intros [[h hc rh] past].
  - unfold configured; simpl. now rewrite app_nil_r.
  - cbn [for_each]. unfold bind at 1.
    unfold curl_slist_append at 1, modify_context. cbn.
    rewrite IH. unfold configured; cbn. now rewrite <- app_assoc.
Qed.

Lemma attached_headers_ready (h : CURL) (hc rh rh' : list string) :
  attached_headers {| curl := ready h; header_chunk := hc;
                      response_headers := rh |}
  = attached_headers {| curl := h; header_chunk := hc;
                        response_headers := rh' |}.
Proof. reflexivity. Qed.

(** The part of a request from the installation of the callbacks on, on
    the worker with handle [h], header list [hc] and header lines [rh]. *)
Ltac request_tail h hc rh :=
  unfold outcome, transfer_on, received, bind,
    curl_easy_setopt, move_response_headers, set_response_headers,
    modify_context, curl_easy_perform, curl_easy_getinfo, ret,
    inspectable, assemble;
  cbn [curl_thread_context performed curl header_chunk response_headers
       on_handle with_headers did fst snd];
  fold (ready h);
  rewrite (attached_headers_ready h hc [] rh);
  destruct (fold_left _ _ _) as [lines chunk];
  cbn [fst snd];
  destruct (_ || _); [|reflexivity];
  cbn [curl_thread_context performed curl header_chunk response_headers
       on_handle with_headers did fst snd];
  rewrite rev_unit; reflexivity.

Module Url_cxx_facts.
Import Url_cxx Url_cxx_spec.
Section Facts.

Variable curl_url_set : string -> option string.
Variable engine : engine_t.

Lemma request_outcome (w : worker) :
  request engine w = outcome is_content_type engine w.
Proof.
  destruct w as [[h hc rh] past].
  unfold Url_cxx.request. request_tail h hc rh.
Qed.

Lemma set_headers_configured (hs : header_t) (w : worker) :
  set_headers hs w = (tt, configured (header_options hs) (map c_str hs) w).
Proof.
  unfold set_headers.
  erewrite bind_eq by apply curl_easy_setopt_configured.
  destruct hs as [|x hs].
  - rewrite ret_configured, configured_configured. reflexivity.
  - erewrite bind_eq by apply for_each_curl_slist_append.
    rewrite curl_easy_setopt_configured, !configured_configured.
    cbn [app]. rewrite app_nil_r. reflexivity.
Qed.

Lemma set_url_options_configured (u : string) (w : worker) :
  set_url_options curl_url_set u w = (tt, configured (url_options curl_url_set u) [] w).
Proof.
  unfold set_url_options.
  do 3 (erewrite bind_eq by apply curl_easy_setopt_configured).
  rewrite curl_easy_setopt_configured, !configured_configured.
  reflexivity.
Qed.

Lemma body_str_configured (body_str : string) (w : worker) :
  (curl_easy_setopt CURLOPT_POSTFIELDS (val_str body_str) ;;
   destroy_target CURLOPT_POSTFIELDS) w
  = (tt, configured [(CURLOPT_POSTFIELDS, val_dangling_str body_str);
                     (CURLOPT_POSTFIELDS, val_str body_str)] [] w).
Proof.
  destruct w as [[h hc rh] past]. unfold configured; cbn.
  now rewrite app_nil_r.
Qed.

Ltac configure_step :=
  first
    [ erewrite bind_eq by apply set_url_options_configured
    | erewrite bind_eq by apply set_headers_configured
    | erewrite bind_eq by apply body_str_configured
    | erewrite bind_eq by apply curl_easy_setopt_configured
    | erewrite bind_eq by apply ret_configured ].

(** A request followed by the end of the lifetime of what the option set
    last points to. *)
Lemma request_then_destroy (o : CURLoption) (v v' : optval)
                           (opts : CURL) (lines : list string) (w : worker) :
  (forall h, getopt (ready ((o, v) :: h)) o = Some v) ->
  (forall h,
     match v with
     | val_str s => (o, val_dangling_str s) :: h
     | val_mime parts => (o, val_dangling_mime parts) :: h
     | _ => h
     end = (o, v') :: h) ->
  (response <- request engine ;; destroy_target o ;; ret response)
    (configured ((o, v) :: opts) lines w)
  = after_return [(o, v')]
      (outcome is_content_type engine (configured ((o, v) :: opts) lines w)).
Proof.
  intros Hget Hv.
  unfold bind at 1. rewrite request_outcome.
  unfold outcome, after_return, bind, destroy_target, modify_context, ret.
  cbn [fst snd curl_thread_context performed curl header_chunk
       response_headers transfer_on on_handle configured app].
  rewrite Hget, Hv. reflexivity.
Qed.

(** Every public operation is one request on the worker configured with
    the operation's options and header lines, after which the handle is
    left with what the operation releases on return. *)
Lemma call_outcome (op : operation) (w : worker) :
  call curl_url_set engine op w
  = after_return (released op)
      (outcome is_content_type engine
               (configured (options_of curl_url_set op)
                           (map c_str (supplied op)) w)).
Proof.
  destruct op as [u b hs|u hs|u hs|u b hs|u b hs|u f hs|u b hs];
    cbn [Url_cxx.call supplied options_of released];
    unfold del, get, head, patch, post, post_form, put, update,
      update_options, body_options;
    try (destruct b as [|b0 b]);
    repeat configure_step;
    rewrite !configured_configured;
    repeat rewrite <- app_assoc;
    cbn [app]; rewrite ?app_nil_r;
    first
      [ rewrite request_outcome; reflexivity
      | apply request_then_destroy; intros; reflexivity ].
Qed.

Ltac by_cases op :=
  destruct op as [u b hs|u hs|u hs|u b hs|u b hs|u f hs|u b hs];
  try (destruct b as [|b0 b]); destruct hs as [|x hs]; reflexivity.

Lemma options_of_PROTOCOLS (op : operation) :
  getopt (options_of curl_url_set op) CURLOPT_PROTOCOLS
  = Some (val_long (Z.lor CURLPROTO_HTTP CURLPROTO_HTTPS)).
Proof. by_cases op. Qed.

Lemma options_of_URL (op : operation) :
  getopt (options_of curl_url_set op) CURLOPT_URL
  = Some (val_str (c_str (encode_url curl_url_set (url_of op)))).
Proof. by_cases op. Qed.

Lemma options_of_NOBODY (op : operation) :
  getopt (options_of curl_url_set op) CURLOPT_NOBODY
  = if is_head op then Some (val_long 1) else None.
Proof. by_cases op. Qed.

Lemma options_of_CUSTOMREQUEST (op : operation) :
  getopt (options_of curl_url_set op) CURLOPT_CUSTOMREQUEST
  = option_map val_str (custom_method op).
Proof. by_cases op. Qed.

Lemma options_of_POSTFIELDS_none (op : operation) :
  payload op = None ->
  getopt (options_of curl_url_set op) CURLOPT_POSTFIELDS = None.
Proof.
  destruct op as [u b hs|u hs|u hs|u b hs|u b hs|u f hs|u b hs];
    try (destruct b as [|b0 b]); destruct hs as [|x hs];
    cbn [payload]; intros E; try discriminate E; reflexivity.
Qed.

(** The payload an operation attaches dangles on the handle when the
    operation has returned. *)
Lemma payload_left_dangling (op : operation) (b : string) (h : CURL) :
  payload op = Some b ->
  getopt (released op ++ ready (options_of curl_url_set op ++ h))
         CURLOPT_POSTFIELDS
  = Some (val_dangling_str b).
Proof.
  destruct op as [u c hs|u hs|u hs|u c hs|u c hs|u f hs|u c hs];
    try (destruct c as [|c0 c]); destruct hs as [|x hs];
    cbn [payload]; intros E; try discriminate E;
    injection E as <-; reflexivity.
Qed.

Lemma released_untouched (op : operation) (o : CURLoption) :
  o <> CURLOPT_POSTFIELDS -> o <> CURLOPT_MIMEPOST ->
  getopt (released op) o = None.
Proof.
  intros H1 H2.
  destruct op; cbn [released getopt]; try reflexivity;
    destruct (CURLoption_eq_dec _ _) as [E|_];
    try reflexivity; congruence.
Qed.

Lemma options_of_HTTPHEADER (op : operation) :
  getopt (options_of curl_url_set op) CURLOPT_HTTPHEADER
  = match supplied op with
    | [] => None
    | _ => Some val_header_chunk
    end.
Proof. by_cases op. Qed.

End Facts.
End Url_cxx_facts.

Module Url_cpp_facts.
Import Url_cpp Url_cpp_spec.
Section Facts.

Variable engine : engine_t.

Lemma get_outcome (u : string) (hs : header_t) (w : worker) :
  get engine u hs w
  = outcome (starts_with "content-type:") engine
            (configured (options_of u hs) (map c_str hs) w).
Proof.
  unfold get, options_of, header_options.
  do 4 (erewrite bind_eq by apply curl_easy_setopt_configured).
  destruct hs as [|x hs].
  - erewrite bind_eq by apply ret_configured.
    rewrite !configured_configured. cbn [app map].
    destruct w as [[h hc rh] past].
    unfold configured at 1 2.
    cbn [curl_thread_context performed curl header_chunk response_headers].
    match goal with
    | |- _ {| curl_thread_context :=
                {| curl := ?h'; header_chunk := ?hc'; response_headers := _ |};
              performed := _ |} = _ => request_tail h' hc' rh
    end.
  - erewrite bind_eq;
      [|erewrite bind_eq by apply for_each_curl_slist_append;
        apply curl_easy_setopt_configured].
    rewrite !configured_configured. cbn [app]. rewrite ?app_nil_r.
    destruct w as [[h hc rh] past].
    unfold configured at 1 2.
    cbn [curl_thread_context performed curl header_chunk response_headers].
    match goal with
    | |- _ {| curl_thread_context :=
                {| curl := ?h'; header_chunk := ?hc'; response_headers := _ |};
              performed := _ |} = _ => request_tail h' hc' rh
    end.
Qed.

End Facts.
End Url_cpp_facts.

(* ================================================================== *)
(** * What a request leaves on the worker and returns *)
(* ================================================================== *)

Lemma getopt_app (l h : CURL) (o : CURLoption) :
  getopt (l ++ h) o
  = match getopt l o with
    | Some v => Some v
    | None => getopt h o
    end.
Proof.
  induction l as [|[o' v] l IH]; cbn [app getopt]; [reflexivity|].
  now destruct (CURLoption_eq_dec o o').
Qed.

Lemma inspectable_false (c : CURLcode) :
  c <> CURLE_OK -> c <> CURLE_HTTP_RETURNED_ERROR -> inspectable c = false.
Proof.
  intros H1 H2. unfold inspectable.
  apply orb_false_iff; split; now apply Nat.eqb_neq.
Qed.

Lemma inspectable_true (c : CURLcode) :
  inspectable c = true -> c = CURLE_OK \/ c = CURLE_HTTP_RETURNED_ERROR.
Proof.
  unfold inspectable. rewrite orb_true_iff, !Nat.eqb_eq. tauto.
Qed.

Lemma sentinel_default : sentinel default_response.
Proof. repeat split. Qed.

Lemma outcome_failure (is_ct : string -> bool) (engine : engine_t)
                      (opts : CURL) (lines : list string) (w : worker) :
  failure_gives_sentinel w (outcome is_ct engine (configured opts lines w)).
Proof.
  exists (transfer_on engine (configured opts lines w)).
  unfold outcome. cbn [fst snd performed].
  split; [reflexivity|]. split.
  - intros H1 H2. rewrite (inspectable_false _ H1 H2).
    apply sentinel_default.
  - destruct (inspectable _) eqn:E.
    + intros _. now apply inspectable_true.
    + intros H. exfalso. apply H, sentinel_default.
Qed.

Lemma outcome_only_own (is_ct : string -> bool) (engine : engine_t)
                       (opts : CURL) (lines : list string) (w : worker) :
  only_own_deliveries w (outcome is_ct engine (configured opts lines w)).
Proof.
  exists (transfer_on engine (configured opts lines w)).
  unfold outcome. cbn [fst snd performed].
  split; [reflexivity|].
  destruct (inspectable _).
  - apply (received_transfer_on engine (configured opts lines w)).
  - split; reflexivity.
Qed.

Lemma outcome_performs_with (is_ct : string -> bool) (engine : engine_t)
    (opts : CURL) (lines : list string) (w : worker) (o : CURLoption) :
  performs_with o (getopt (ready (opts ++ curl (curl_thread_context w))) o)
    w (outcome is_ct engine (configured opts lines w)).
Proof.
  exists (transfer_on engine (configured opts lines w)).
  split; reflexivity.
Qed.

Lemma http_and_https_only (n : Z) :
  Z.testbit (Z.lor CURLPROTO_HTTP CURLPROTO_HTTPS) n = true
  <-> n = 0%Z \/ n = 1%Z.
Proof.
  change (Z.lor CURLPROTO_HTTP CURLPROTO_HTTPS) with 3%Z.
  split.
  - intros H.
    destruct (Z.eq_dec n 0) as [|N0]; [now left|].
    destruct (Z.eq_dec n 1) as [|N1]; [now right|].
    exfalso.
    destruct (Z.neg_nonneg_cases n) as [Hneg|Hpos].
    + rewrite Z.testbit_neg_r in H by assumption. discriminate.
    + rewrite Z.bits_above_log2 in H; [discriminate | lia |].
      change (Z.log2 3) with 1%Z. lia.
  - intros [-> | ->]; reflexivity.
Qed.

Lemma outcome_appends (is_ct : string -> bool) (engine : engine_t)
    (opts : CURL) (hs : header_t) (w : worker) :
  getopt opts CURLOPT_HTTPHEADER
  = match hs with
    | [] => None
    | _ => Some val_header_chunk
    end ->
  appends_to_header_list hs w
    (outcome is_ct engine (configured opts (map c_str hs) w)).
Proof.
  intros Hopt.
  exists (transfer_on engine (configured opts (map c_str hs) w)).
  split; [reflexivity|]. split.
  - unfold outcome. destruct (inspectable _); reflexivity.
  - cbn [with_headers transfer_on].
    unfold attached_headers.
    cbn [configured curl header_chunk curl_thread_context].
    rewrite getopt_app, Hopt.
    split.
    + intros Hne. destruct hs; [congruence | reflexivity].
    + intros ->. cbn [map]. rewrite app_nil_r. reflexivity.
Qed.

(* ================================================================== *)
(** * The program at work *)
(* ================================================================== *)

Example get_example :
  fst (Url_cxx.get with_default_scheme
         (serving ["HTTP/1.1 200 OK"; "Content-Type: text/html; charset=UTF-8"]
                  "<html/>")
         "example.com" ["Accept: text/html"] fresh_worker)
  = {| status_code := 200;
       headers := ["HTTP/1.1 200 OK"; "Content-Type: text/html; charset=UTF-8"];
       body := "<html/>";
       encoding := "UTF-8";
       url := "http://example.com/" |}.
Proof. vm_compute. reflexivity. Qed.

Example get_after_get_example :
  let engine := serving_once ["HTTP/1.1 200 OK"; "Server: x"] "<html/>" in
  let first := Url_cxx.get with_default_scheme engine "example.com" []
                 fresh_worker in
  let second := Url_cxx.get with_default_scheme engine "example.com" []
                  (snd first) in
  headers (fst first) = ["HTTP/1.1 200 OK"; "Server: x"] /\
  body (fst first) = "<html/>" /\
  fst second
  = {| status_code := 404;
       headers := ["HTTP/1.1 404 Not Found"; ""];
       body := "";
       encoding := "";
       url := "http://example.com/" |} /\
  to_bool (fst first) = true /\ to_bool (fst second) = false.
Proof. vm_compute. repeat split. Qed.

Example head_then_post_example :
  let w1 := snd (Url_cxx.head with_default_scheme unreachable
                   "example.com" ["X-Trace: 1"] fresh_worker) in
  let w2 := snd (Url_cxx.post with_default_scheme unreachable
                   "example.com/login" "user=dopey" [] w1) in
  getopt (curl (curl_thread_context w2)) CURLOPT_NOBODY = Some (val_long 1) /\
  getopt (curl (curl_thread_context w2)) CURLOPT_URL
  = Some (val_str "http://example.com/login") /\
  attached_headers (curl_thread_context w2) = ["X-Trace: 1"].
Proof. vm_compute. repeat split. Qed.

(* ================================================================== *)
(** * The charset of the response (C1) *)
(* ================================================================== *)

(** C1 at an input where a semicolon follows the charset: the encoding is
    not cut at the semicolon.  [url.cxx] and [url.cpp] agree there; on the
    same header line with a capitalised name [url.cpp] finds no charset at
    all. *)
Theorem charset_not_cut_at_semicolon :
  let line := "content-type: text/html; charset=UTF-8; boundary=x" in
  let Line := "Content-Type: text/html; charset=UTF-8; boundary=x" in
  encoding (fst (Url_cxx.get with_default_scheme
                   (serving ["HTTP/1.1 200 OK"; line] "<html/>")
                   "example.com" [] fresh_worker))
  = "UTF-8; boundary=x" /\
  encoding (fst (Url_cxx.get with_default_scheme
                   (serving ["HTTP/1.1 200 OK"; Line] "<html/>")
                   "example.com" [] fresh_worker))
  = "UTF-8; boundary=x" /\
  encoding (fst (Url_cpp.get
                   (serving ["HTTP/1.1 200 OK"; line] "<html/>")
                   "example.com" [] fresh_worker))
  = "UTF-8; boundary=x" /\
  encoding (fst (Url_cpp.get
                   (serving ["HTTP/1.1 200 OK"; Line] "<html/>")
                   "example.com" [] fresh_worker))
  = "".
Proof. vm_compute. repeat split. Qed.

(* ================================================================== *)
(** * The request header list (C2) *)
(* ================================================================== *)

Lemma calls_header_chunk
    (curl_url_set : string -> option string) (engine : engine_t)
    (ops : list Url_cxx.operation) (w : worker) :
  header_chunk
    (curl_thread_context (snd (Url_cxx_spec.calls curl_url_set engine ops w)))
  = header_chunk (curl_thread_context w)
    ++ flat_map (fun op => map c_str (Url_cxx_spec.supplied op)) ops.
Proof.
  revert w. induction ops as [|op ops IH]; intros w.
  - cbn. now rewrite app_nil_r.
  - cbn [Url_cxx_spec.calls flat_map]. unfold bind at 1.
    destruct (Url_cxx.call curl_url_set engine op w) as [r w1] eqn:E1.
    unfold bind at 1.
    destruct (Url_cxx_spec.calls curl_url_set engine ops w1) as [rs w2] eqn:E2.
    cbn [ret snd].
    replace w2
      with (snd (Url_cxx_spec.calls curl_url_set engine ops w1))
      by now rewrite E2.
    rewrite IH.
    replace w1 with (snd (Url_cxx.call curl_url_set engine op w))
      by now rewrite E1.
    rewrite Url_cxx_facts.call_outcome. cbn. now rewrite app_assoc.
Qed.

(** C2, as the code has it.  The request header list is never freed or
    rebuilt by a public operation: every call appends the lines it is
    handed to the worker's list and removes none.  A call that supplies
    header lines invokes the engine on the lines of all earlier calls on
    the worker followed by its own; a call that supplies none invokes it
    on the list attached before.  The same holds of [get] in [url.cpp].
    So the entries freed at the teardown of the worker are all the lines
    handed to the calls made on it. *)
Theorem header_list_only_grows :
  (forall curl_url_set engine op w,
     appends_to_header_list (Url_cxx_spec.supplied op) w
       (Url_cxx.call curl_url_set engine op w)) /\
  (forall engine u hs w,
     appends_to_header_list hs w (Url_cpp.get engine u hs w)) /\
  (forall curl_url_set engine ops w,
     curl_thread_local_destructor
       (curl_thread_context
          (snd (Url_cxx_spec.calls curl_url_set engine ops w)))
     = header_chunk (curl_thread_context w)
       ++ flat_map (fun op => map c_str (Url_cxx_spec.supplied op)) ops).
Proof.
  split; [|split]; intros.
  - rewrite Url_cxx_facts.call_outcome.
    apply outcome_appends, Url_cxx_facts.options_of_HTTPHEADER.
  - rewrite Url_cpp_facts.get_outcome.
    apply outcome_appends. now destruct hs.
  - apply calls_header_chunk.
Qed.

Lemma header_list_only_grows_witness :
  let w1 := snd (Url_cxx.call with_default_scheme unreachable
                   (Url_cxx.op_get "example.com" ["Accept: text/html"])
                   fresh_worker) in
  exists p,
    performed (snd (Url_cxx.call with_default_scheme unreachable
                      (Url_cxx.op_get "example.com" ["Accept-Language: sv"])
                      w1))
    = performed w1 ++ [p] /\
    with_headers p = ["Accept: text/html"; "Accept-Language: sv"].
Proof.
  destruct (proj1 header_list_only_grows with_default_scheme unreachable
              (Url_cxx.op_get "example.com" ["Accept-Language: sv"])
              (snd (Url_cxx.call with_default_scheme unreachable
                      (Url_cxx.op_get "example.com" ["Accept: text/html"])
                      fresh_worker)))
    as (p & Hp & _ & Hne & _).
  exists p. split; [exact Hp|].
  rewrite Hne by discriminate. vm_compute. reflexivity.
Defined.

(** On a worker that has already sent a request with one header line, the
    list attached for a call with another line is not that line alone. *)
Lemma header_list_not_rebuilt :
  let w1 := snd (Url_cxx.get with_default_scheme unreachable "example.com"
                   ["Accept: text/html"] fresh_worker) in
  ~ attaches_exactly ["Accept-Language: sv"] w1
      (Url_cxx.get with_default_scheme unreachable "example.com"
         ["Accept-Language: sv"] w1).
Proof.
  cbn zeta. intros (p & Hp & Hlist).
  vm_compute in Hp. injection Hp as <-.
  vm_compute in Hlist. discriminate.
Qed.

(* ================================================================== *)
(** * Transfers that yield no response (C3) *)
(* ================================================================== *)

(** C3.  Whatever public operation is called, when the engine reports
    anything but clean success or the flagged HTTP error the response has
    status code 0 and empty headers, body, encoding and url; a response
    with any field populated comes from one of those two outcomes.  The
    same holds of [get] in [url.cpp]. *)
Theorem failed_transfer_gives_sentinel :
  (forall curl_url_set engine op w,
     failure_gives_sentinel w (Url_cxx.call curl_url_set engine op w)) /\
  (forall engine u hs w,
     failure_gives_sentinel w (Url_cpp.get engine u hs w)).
Proof.
  split; intros.
  - rewrite Url_cxx_facts.call_outcome. apply outcome_failure.
  - rewrite Url_cpp_facts.get_outcome. apply outcome_failure.
Qed.

Lemma failed_transfer_gives_sentinel_witness :
  sentinel (fst (Url_cxx.call with_default_scheme unreachable
                   (Url_cxx.op_get "nowhere.invalid" []) fresh_worker)).
Proof.
  destruct (proj1 failed_transfer_gives_sentinel with_default_scheme
              unreachable (Url_cxx.op_get "nowhere.invalid" []) fresh_worker)
    as (p & Hp & Hfail & _).
  vm_compute in Hp. injection Hp as <-.
  apply Hfail; vm_compute; discriminate.
Defined.

(* ================================================================== *)
(** * The protocols allowed (C4) *)
(* ================================================================== *)

(** C4, as the code has it.  Every public operation of [url.cxx] invokes
    the engine once, on a handle whose allowed protocols are the HTTP and
    HTTPS bits and no other; [get] of [url.cpp] invokes it on a handle
    whose protocol option is what it was before the call. *)
Theorem url_cxx_restricts_protocols :
  (forall curl_url_set engine op w,
     restricts_protocols w (Url_cxx.call curl_url_set engine op w)) /\
  (forall n,
     Z.testbit (Z.lor CURLPROTO_HTTP CURLPROTO_HTTPS) n = true
     <-> n = 0%Z \/ n = 1%Z) /\
  (forall engine u hs w,
     performs_with CURLOPT_PROTOCOLS
       (getopt (curl (curl_thread_context w)) CURLOPT_PROTOCOLS)
       w (Url_cpp.get engine u hs w)).
Proof.
  split; [|split].
  - intros. rewrite Url_cxx_facts.call_outcome.
    unfold restricts_protocols.
    rewrite <- (Url_cxx_facts.options_of_PROTOCOLS curl_url_set op).
    replace (getopt (Url_cxx_spec.options_of curl_url_set op)
                    CURLOPT_PROTOCOLS)
      with (getopt (ready (Url_cxx_spec.options_of curl_url_set op
                             ++ curl (curl_thread_context w)))
                   CURLOPT_PROTOCOLS).
    + apply outcome_performs_with.
    + change (getopt (ready ?h) CURLOPT_PROTOCOLS)
        with (getopt h CURLOPT_PROTOCOLS).
      rewrite getopt_app.
      now rewrite Url_cxx_facts.options_of_PROTOCOLS.
  - apply http_and_https_only.
  - intros. rewrite Url_cpp_facts.get_outcome.
    replace (getopt (curl (curl_thread_context w)) CURLOPT_PROTOCOLS)
      with (getopt (ready (Url_cpp_spec.options_of u hs
                             ++ curl (curl_thread_context w)))
                   CURLOPT_PROTOCOLS).
    + apply outcome_performs_with.
    + change (getopt (ready ?h) CURLOPT_PROTOCOLS)
        with (getopt h CURLOPT_PROTOCOLS).
      rewrite getopt_app. now destruct hs.
Qed.

(** [get] of [url.cpp], called on a fresh worker, invokes the engine on a
    handle without any protocol restriction. *)
Lemma url_cpp_get_does_not_restrict_protocols :
  ~ restricts_protocols fresh_worker
      (Url_cpp.get (serving ["HTTP/1.1 200 OK"] "hello")
                   "http://example.com/" [] fresh_worker).
Proof.
  intros (p & Hp & Hopt).
  vm_compute in Hp. injection Hp as <-.
  vm_compute in Hopt. discriminate.
Qed.

(* ================================================================== *)
(** * The header accumulator (C5) *)
(* ================================================================== *)

(** C5.  Every invocation of the response-header callback appends exactly
    one entry at the end of the header sequence, so the entries are in
    delivery order; the entry is the delivered line without its two final
    characters when the line ends with CRLF, and the line itself, byte for
    byte, otherwise. *)
Theorem header_callbacks_append_in_order
    (calls : list (string * nat * nat)) (hs : list string) :
  exists entries,
    header_callbacks calls hs = hs ++ entries /\
    Forall2 (fun call entry =>
               let '(buffer, _, nitems) := call in
               stored_as (take nitems buffer) entry)
            calls entries.
Proof.
  revert hs. induction calls as [|[[buffer size'] nitems] calls IH]; intros hs.
  - exists []. split; [now rewrite app_nil_r | constructor].
  - destruct (header_callback_once buffer size' nitems hs) as (e & He & Hs).
    destruct (IH (hs ++ [e])) as (es & Hes & Hf).
    exists (e :: es). split.
    + change (header_callbacks ((buffer, size', nitems) :: calls) hs)
        with (header_callbacks calls
                (snd (header_callback buffer size' nitems hs))).
      rewrite He. cbn [snd]. rewrite Hes, <- app_assoc. reflexivity.
    + constructor; assumption.
Qed.

(* ================================================================== *)
(** * URLs the parser rejects (C6) *)
(* ================================================================== *)

(** C6.  When the engine's URL parser rejects the URL handed to a public
    operation, [encode_url] returns the URL as it was given, the operation
    still invokes the engine once, on a handle whose URL is that string,
    and its response is the one the transfer yields. *)
Theorem rejected_url_used_verbatim
    (curl_url_set : string -> option string) (engine : engine_t)
    (op : Url_cxx.operation) (w : worker) :
  curl_url_set (c_str (Url_cxx_spec.url_of op)) = None ->
  Url_cxx.encode_url curl_url_set (Url_cxx_spec.url_of op)
  = Url_cxx_spec.url_of op /\
  exists p,
    performed (snd (Url_cxx.call curl_url_set engine op w))
    = performed w ++ [p] /\
    getopt (on_handle p) CURLOPT_URL
    = Some (val_str (c_str (Url_cxx_spec.url_of op))) /\
    fst (Url_cxx.call curl_url_set engine op w)
    = if inspectable (result (did p))
      then assemble Url_cxx.is_content_type (did p)
                    (fst (received p)) (snd (received p))
      else default_response.
Proof.
  intros Hrej.
  assert (E : Url_cxx.encode_url curl_url_set (Url_cxx_spec.url_of op)
              = Url_cxx_spec.url_of op)
    by (unfold Url_cxx.encode_url; now rewrite Hrej).
  split; [exact E|].
  rewrite Url_cxx_facts.call_outcome.
  eexists. split; [reflexivity|]. split; [|reflexivity].
  cbn [on_handle transfer_on configured curl curl_thread_context].
  change (getopt (ready ?h) CURLOPT_URL) with (getopt h CURLOPT_URL).
  rewrite getopt_app, Url_cxx_facts.options_of_URL, E. reflexivity.
Qed.

Lemma rejected_url_used_verbatim_witness :
  Url_cxx.encode_url rejecting "http://exa mple .com" = "http://exa mple .com"
  /\ exists p,
       performed (snd (Url_cxx.call rejecting unreachable
                         (Url_cxx.op_get "http://exa mple .com" [])
                         fresh_worker)) = [p] /\
       getopt (on_handle p) CURLOPT_URL
       = Some (val_str "http://exa mple .com").
Proof.
  destruct (rejected_url_used_verbatim rejecting unreachable
              (Url_cxx.op_get "http://exa mple .com" []) fresh_worker
              eq_refl)
    as (E & p & Hp & Hurl & _).
  split; [exact E|].
  exists p. split; [exact Hp | exact Hurl].
Defined.

(* ================================================================== *)
(** * Isolation of successive requests (C7) *)
(* ================================================================== *)

(** C7.  Two calls of [get] in sequence on one worker give two isolated
    responses: each call performs one transfer, and the header lines and
    the body of its response are exactly what was delivered during that
    transfer, so nothing accumulated during the first call shows in the
    response of the second. *)
Theorem get_twice_isolated
    (curl_url_set : string -> option string) (engine : engine_t)
    (u : string) (hs : header_t) (w : worker) :
  let first := Url_cxx.get curl_url_set engine u hs w in
  let second := Url_cxx.get curl_url_set engine u hs (snd first) in
  only_own_deliveries w first /\ only_own_deliveries (snd first) second.
Proof.
  cbn zeta.
  change (Url_cxx.get curl_url_set engine u hs)
    with (Url_cxx.call curl_url_set engine (Url_cxx.op_get u hs)).
  rewrite !Url_cxx_facts.call_outcome.
  split; apply outcome_only_own.
Qed.

(* ================================================================== *)
(** * The success predicate (C8) *)
(* ================================================================== *)

(** C8.  The conversion of a response to [bool] is true exactly for a
    status code in [100, 400): every 3xx status counts as success, every
    4xx and 5xx status and the sentinel 0 count as failure. *)
Theorem success_iff_status_in_range (r : response_t) :
  (to_bool r = true <-> (100 <= status_code r < 400)%Z) /\
  ((300 <= status_code r < 400)%Z -> to_bool r = true) /\
  ((400 <= status_code r < 600)%Z -> to_bool r = false) /\
  (status_code r = 0%Z -> to_bool r = false).
Proof.
  unfold to_bool.
  assert (E : (100 <=? status_code r)%Z && (status_code r <? 400)%Z = true
              <-> (100 <= status_code r < 400)%Z)
    by (rewrite andb_true_iff, Z.leb_le, Z.ltb_lt; reflexivity).
  split; [exact E|].
  split; [intros; apply E; lia|].
  split; intros; apply not_true_is_false; rewrite E; lia.
Qed.

Lemma success_iff_status_in_range_witness :
  to_bool {| status_code := 302; headers := []; body := "";
             encoding := ""; url := "" |} = true /\
  to_bool {| status_code := 404; headers := []; body := "";
             encoding := ""; url := "" |} = false /\
  to_bool default_response = false.
Proof.
  split; [|split].
  - apply (proj1 (proj2 (success_iff_status_in_range
                           {| status_code := 302; headers := []; body := "";
                              encoding := ""; url := "" |}))).
    cbn [status_code]. lia.
  - apply (proj1 (proj2 (proj2 (success_iff_status_in_range
                           {| status_code := 404; headers := []; body := "";
                              encoding := ""; url := "" |})))).
    cbn [status_code]. lia.
  - apply (proj2 (proj2 (proj2 (success_iff_status_in_range
                                  default_response)))).
    reflexivity.
Defined.

(* ================================================================== *)
(** * Options left on the handle (C9) *)
(* ================================================================== *)

(** C9.  No public operation resets the handle: a call only adds to what
    the options held before it.  So on the handle the next call invokes
    the engine on, [CURLOPT_NOBODY] is still 1 after [head]; the custom
    method of [put], [patch] or [del] is still set when the next call is
    [get], [head] or [post]; and the payload option of a call that attached
    a body is still the pointer that call set when the next call attaches
    none, the string it points to being destroyed by then. *)
Theorem options_persist_across_calls
    (curl_url_set : string -> option string) (engine : engine_t)
    (prev next : Url_cxx.operation) (w : worker) :
  let w1 := snd (Url_cxx.call curl_url_set engine prev w) in
  (exists set,
     curl (curl_thread_context w1) = set ++ curl (curl_thread_context w)) /\
  exists p,
    performed (snd (Url_cxx.call curl_url_set engine next w1))
    = performed w1 ++ [p] /\
    (Url_cxx_spec.is_head prev = true ->
     getopt (on_handle p) CURLOPT_NOBODY = Some (val_long 1)) /\
    (forall m,
       Url_cxx_spec.custom_method prev = Some m ->
       Url_cxx_spec.custom_method next = None ->
       getopt (on_handle p) CURLOPT_CUSTOMREQUEST = Some (val_str m)) /\
    (forall b,
       Url_cxx_spec.payload prev = Some b ->
       Url_cxx_spec.payload next = None ->
       getopt (on_handle p) CURLOPT_POSTFIELDS = Some (val_dangling_str b)).
Proof.
  cbn zeta.
  rewrite (Url_cxx_facts.call_outcome curl_url_set engine prev w).
  set (w1 := snd (after_return _ _)).
  assert (Hw1 : curl (curl_thread_context w1)
                = Url_cxx_spec.released prev
                  ++ ready (Url_cxx_spec.options_of curl_url_set prev
                              ++ curl (curl_thread_context w)))
    by reflexivity.
  split.
  - rewrite Hw1. unfold ready.
    exists (Url_cxx_spec.released prev
              ++ (CURLOPT_HEADERFUNCTION, val_header_callback)
              :: (CURLOPT_WRITEDATA, val_chunk)
              :: (CURLOPT_WRITEFUNCTION, val_write_user_data)
              :: Url_cxx_spec.options_of curl_url_set prev).
    rewrite <- app_assoc. reflexivity.
  - rewrite Url_cxx_facts.call_outcome.
    eexists. split; [reflexivity|].
    cbn [on_handle transfer_on configured curl curl_thread_context
         after_return outcome fst snd].
    rewrite Hw1.
    change (getopt (ready ?h) CURLOPT_NOBODY) with (getopt h CURLOPT_NOBODY).
    change (getopt (ready ?h) CURLOPT_CUSTOMREQUEST)
      with (getopt h CURLOPT_CUSTOMREQUEST).
    change (getopt (ready ?h) CURLOPT_POSTFIELDS)
      with (getopt h CURLOPT_POSTFIELDS).
    rewrite !(getopt_app (Url_cxx_spec.options_of curl_url_set next)).
    rewrite Url_cxx_facts.options_of_NOBODY,
      Url_cxx_facts.options_of_CUSTOMREQUEST.
    repeat split.
    + intros Hhead. destruct (Url_cxx_spec.is_head next); [reflexivity|].
      rewrite getopt_app, Url_cxx_facts.released_untouched by discriminate.
      change (getopt (ready ?h) CURLOPT_NOBODY)
        with (getopt h CURLOPT_NOBODY).
      now rewrite getopt_app, Url_cxx_facts.options_of_NOBODY, Hhead.
    + intros m Hprev ->. cbn [option_map].
      rewrite getopt_app, Url_cxx_facts.released_untouched by discriminate.
      change (getopt (ready ?h) CURLOPT_CUSTOMREQUEST)
        with (getopt h CURLOPT_CUSTOMREQUEST).
      now rewrite getopt_app, Url_cxx_facts.options_of_CUSTOMREQUEST, Hprev.
    + intros b Hprev Hnext.
      rewrite (Url_cxx_facts.options_of_POSTFIELDS_none _ _ Hnext).
      now apply Url_cxx_facts.payload_left_dangling.
Qed.

Lemma options_persist_across_calls_witness :
  (let w1 := snd (Url_cxx.call with_default_scheme unreachable
                    (Url_cxx.op_head "example.com" []) fresh_worker) in
   exists p,
     performed (snd (Url_cxx.call with_default_scheme unreachable
                       (Url_cxx.op_get "example.com" []) w1))
     = performed w1 ++ [p] /\
     getopt (on_handle p) CURLOPT_NOBODY = Some (val_long 1)) /\
  (let w1 := snd (Url_cxx.call with_default_scheme unreachable
                    (Url_cxx.op_put "example.com" "{}" []) fresh_worker) in
   exists p,
     performed (snd (Url_cxx.call with_default_scheme unreachable
                       (Url_cxx.op_get "example.com" []) w1))
     = performed w1 ++ [p] /\
     getopt (on_handle p) CURLOPT_CUSTOMREQUEST = Some (val_str "PUT") /\
     getopt (on_handle p) CURLOPT_POSTFIELDS
     = Some (val_dangling_str "{}")).
Proof.
  split.
  - destruct (options_persist_across_calls with_default_scheme unreachable
                (Url_cxx.op_head "example.com" [])
                (Url_cxx.op_get "example.com" []) fresh_worker)
      as (_ & p & Hp & Hnobody & _).
    exists p. split; [exact Hp | exact (Hnobody eq_refl)].
  - destruct (options_persist_across_calls with_default_scheme unreachable
                (Url_cxx.op_put "example.com" "{}" [])
                (Url_cxx.op_get "example.com" []) fresh_worker)
      as (_ & p & Hp & _ & Hmethod & Hpayload).
    exists p. split; [exact Hp|]. split.
    + exact (Hmethod "PUT" eq_refl eq_refl).
    + exact (Hpayload "{}" eq_refl eq_refl).
Defined.

(* ================================================================== *)
(** * The combinators (C10) *)
(* ================================================================== *)

(** C10.  On a response whose success predicate is false, [and_then]
    returns a value-initialised result without invoking the callable (the
    ambient state is untouched) and [or_else] returns what the callable
    returns when invoked without arguments; on a successful response
    [and_then] returns the callable applied to the response and [or_else]
    returns the response itself, without invoking the callable. *)
Theorem and_then_or_else_spec
    {St R : Type} `{ValueInit R}
    (r : response_t)
    (f : response_t -> St -> R * St)
    (g : unit -> St -> response_t * St) (s : St) :
  (to_bool r = false ->
     and_then f r s = (value_init, s) /\ or_else g r s = g tt s) /\
  (to_bool r = true ->
     and_then f r s = f r s /\ or_else g r s = (r, s)).
Proof.
  unfold and_then, or_else.
  split; intros ->; split; reflexivity.
Qed.

Lemma and_then_or_else_spec_witness :
  let found := {| status_code := 200; headers := []; body := "ok";
                  encoding := ""; url := "" |} in
  let count := fun (r : response_t) (n : nat) => (body r, S n) in
  let retry := fun (_ : unit) (n : nat) => (found, S n) in
  (and_then count default_response 0 = ("", 0) /\
   or_else retry default_response 0 = (found, 1)) /\
  (and_then count found 0 = ("ok", 1) /\
   or_else retry found 0 = (found, 0)).
Proof.
  intros found count retry. split.
  - apply (proj1 (and_then_or_else_spec default_response count retry 0)).
    reflexivity.
  - apply (proj2 (and_then_or_else_spec found count retry 0)).
    reflexivity.
Defined.

(* ================================================================== *)
(** * Further properties of the string members *)
(* ================================================================== *)

Section MoreStringFacts.

Lemma take_drop_append (n : nat) (s : string) :
  (take n s ++ drop n s)%string = s.
Proof.
  revert s. induction n as [|n IH]; intros [|a s]; cbn; try reflexivity.
  now rewrite IH.
Qed.

Lemma length_take (n : nat) (s : string) :
  n <= String.length s -> String.length (take n s) = n.
Proof.
  revert s. induction n as [|n IH]; intros [|a s] H; cbn in *;
    try reflexivity; try lia.
  rewrite IH; lia.
Qed.

Lemma take_append_exact (x rest : string) :
  take (String.length x) (x ++ rest) = x.
Proof. induction x; cbn; [now destruct rest | congruence]. Qed.

Lemma transform_tolower_append (a b : string) :
  transform_tolower (a ++ b)
  = (transform_tolower a ++ transform_tolower b)%string.
Proof. induction a; cbn; congruence. Qed.

Lemma transform_tolower_take (n : nat) (s : string) :
  transform_tolower (take n s) = take n (transform_tolower s).
Proof.
  revert s. induction n as [|n IH]; intros [|a s]; cbn; try reflexivity.
  now rewrite IH.
Qed.

Lemma starts_with_iff (x s : string) :
  starts_with x s = true <-> exists rest, s = (x ++ rest)%string.
Proof.
  revert s. induction x as [|a x IH]; intros s; cbn.
  - split; [intros _; now exists s | reflexivity].
  - destruct s as [|b s].
    + split; [discriminate | intros [rest H]; discriminate].
    + rewrite andb_true_iff, Ascii.eqb_eq, IH. split.
      * intros [-> [rest ->]]. now exists rest.
      * intros [rest H]. injection H as -> ->. split; [reflexivity|].
        now exists rest.
Qed.

Lemma NUL_free_tail (a : ascii) (s : string) :
  NUL_free (String a s) -> a <> zero /\ NUL_free s.
Proof.
  intros H. split.
  - intros ->. now apply (H 0).
  - intros i. apply (H (S i)).
Qed.

Lemma c_str_NUL_free (s : string) : NUL_free (c_str s).
Proof.
  induction s as [|a s IH]; cbn.
  - intros i. now destruct i.
  - destruct (Ascii.eqb a zero) eqn:E.
    + intros i. now destruct i.
    + intros [|i]; cbn.
      * intros [= ->]. now rewrite Ascii.eqb_refl in E.
      * apply IH.
Qed.

Lemma c_str_of_NUL_free (s : string) : NUL_free s -> c_str s = s.
Proof.
  induction s as [|a s IH]; intros H; cbn; [reflexivity|].
  apply NUL_free_tail in H. destruct H as [Ha Hs].
  destruct (Ascii.eqb a zero) eqn:E.
  - apply Ascii.eqb_eq in E. contradiction.
  - now rewrite IH.
Qed.

Lemma c_str_stops_at_NUL (a b : string) :
  NUL_free a -> c_str (a ++ String zero b) = a.
Proof.
  induction a as [|c a IH]; intros H; cbn; [reflexivity|].
  apply NUL_free_tail in H. destruct H as [Hc Ha].
  destruct (Ascii.eqb c zero) eqn:E.
  - apply Ascii.eqb_eq in E. contradiction.
  - now rewrite IH.
Qed.

End MoreStringFacts.

(* ================================================================== *)
(** * Further properties of the delivery callbacks *)
(* ================================================================== *)

(** X1.  Starting from a buffer whose [size] is the length of its
    [memory], and handed each time as many bytes as it is told, the body
    callback leaves in the buffer the bytes it had followed by the bytes
    of every call, in order, and [size] is again the length of [memory];
    every call returns [size * nmemb], the count that tells the engine that
    all of the data was taken. *)
Theorem write_user_data_accumulates
    (calls : list (string * nat * nat)) (mem : user_data) :
  size mem = String.length (memory mem) ->
  Forall (fun call => let '(contents, size', nmemb) := call in
                      size' * nmemb <= String.length contents) calls ->
  let mem' := write_user_data_calls calls mem in
  memory mem' = (memory mem ++ join (map delivered_bytes calls))%string /\
  size mem' = String.length (memory mem') /\
  Forall (fun call => let '(contents, size', nmemb) := call in
                      forall m, fst (write_user_data contents size' nmemb m)
                                = size' * nmemb) calls.
Proof.
  intros Hsz Hall. cbn zeta. revert mem Hsz.
  induction Hall as [|[[contents size'] nmemb] calls Hlen Hall IH];
    intros mem Hsz.
  - cbn. rewrite append_empty_r. repeat split; [assumption | constructor].
  - change (write_user_data_calls ((contents, size', nmemb) :: calls) mem)
      with (write_user_data_calls calls
              (snd (write_user_data contents size' nmemb mem))).
    set (mem1 := snd (write_user_data contents size' nmemb mem)).
    assert (Hm1 : memory mem1
                  = (memory mem ++ take (size' * nmemb) contents)%string).
    { unfold mem1, write_user_data. cbn [snd memory].
      now rewrite Hsz, take_length. }
    assert (Hsz1 : size mem1 = String.length (memory mem1)).
    { rewrite Hm1, string_length_append, length_take by assumption.
      unfold mem1, write_user_data. cbn [snd size]. now rewrite Hsz. }
    destruct (IH mem1 Hsz1) as (Hmem & Hsize & Hret).
    split; [|split].
    + rewrite Hmem, Hm1, append_assoc. reflexivity.
    + assumption.
    + constructor; [intros m; reflexivity | assumption].
Qed.

Lemma write_user_data_accumulates_witness :
  let mem' := write_user_data_calls [("hello ", 1, 6); ("world", 1, 5)]
                                    new_user_data in
  memory mem' = "hello world" /\ size mem' = 11.
Proof.
  cbn zeta.
  destruct (write_user_data_accumulates
              [("hello ", 1, 6); ("world", 1, 5)] new_user_data eq_refl)
    as (Hmem & Hsize & _).
  - repeat constructor.
  - split; [exact Hmem|]. rewrite Hsize, Hmem. reflexivity.
Defined.

(** X2.  The header callback removes one CRLF only: a line that ends with
    two CRLFs is kept with one of them, and the empty line that ends the
    headers is kept as an empty entry.  Whatever the line, the entry is the
    line itself or the line without a final CRLF, and the callback returns
    [size * nitems]. *)
Theorem header_callback_strips_one_CRLF
    (p : string) (size' : nat) (hs : list string) :
  (let line := (p ++ CRLF ++ CRLF)%string in
   snd (header_callback line size' (String.length line) hs)
   = hs ++ [(p ++ CRLF)%string]) /\
  snd (header_callback CRLF size' 2 hs) = hs ++ [""] /\
  (forall nitems, exists entry,
     header_callback p size' nitems hs = (size' * nitems, hs ++ [entry]) /\
     (take nitems p = entry \/ take nitems p = (entry ++ CRLF)%string)).
Proof.
  split; [|split].
  - cbn zeta.
    destruct (header_callback_once (p ++ CRLF ++ CRLF) size'
                (String.length (p ++ CRLF ++ CRLF)) hs) as (e & He & Hs).
    rewrite He. cbn [snd]. rewrite take_length in Hs.
    destruct Hs as [Hs | [Hs _]].
    + rewrite <- append_assoc in Hs.
      assert (E : (p ++ CRLF)%string = e).
      { clear - Hs. revert Hs. generalize (p ++ CRLF)%string. intros q.
        revert e. induction q as [|a q IH]; intros [|b e] H; cbn in *.
        - reflexivity.
        - injection H as _ H. destruct e; cbn in H; [discriminate|].
          injection H as _ H. destruct e; discriminate.
        - injection H as _ H. destruct q; cbn in H; [discriminate|].
          injection H as _ H. destruct q; discriminate.
        - injection H as -> H. f_equal. now apply IH. }
      now rewrite E.
    + exfalso. apply (Hs (p ++ CRLF)%string). now rewrite append_assoc.
  - unfold header_callback. rewrite last_last, removelast_last. reflexivity.
  - intros nitems.
    destruct (header_callback_once p size' nitems hs) as (e & He & Hs).
    exists e. split; [assumption|].
    destruct Hs as [Hs | [_ Hs]]; [now right | now left].
Qed.

(* ================================================================== *)
(** * Further properties of the requests *)
(* ================================================================== *)

Lemma outcome_populated (is_ct : string -> bool) (engine : engine_t)
                        (opts : CURL) (lines : list string) (w : worker) :
  populated_from_transfer w (outcome is_ct engine (configured opts lines w)).
Proof.
  exists (transfer_on engine (configured opts lines w)).
  unfold outcome. cbn [fst snd performed curl curl_thread_context].
  split; [reflexivity|].
  intros Hok. rewrite Hok. cbn [assemble status_code url headers body].
  split; [reflexivity|]. split; [reflexivity|].
  apply (received_transfer_on engine (configured opts lines w)).
Qed.

Lemma to_bool_true_iff (r : response_t) :
  to_bool r = true <-> (100 <= status_code r < 400)%Z.
Proof.
  unfold to_bool. now rewrite andb_true_iff, Z.leb_le, Z.ltb_lt.
Qed.

Lemma outcome_success (is_ct : string -> bool) (engine : engine_t)
                      (opts : CURL) (lines : list string) (w : worker) :
  success_follows_outcome w
    (outcome is_ct engine (configured opts lines w)).
Proof.
  exists (transfer_on engine (configured opts lines w)).
  unfold outcome. cbn [fst snd performed].
  split; [reflexivity|]. split.
  - intros ->. reflexivity.
  - intros -> Hrange. rewrite to_bool_true_iff.
    cbn [assemble status_code]. unfold to_uint32.
    rewrite Z.mod_small by assumption. reflexivity.
Qed.

Lemma outcome_performs_on (is_ct : string -> bool) (engine : engine_t)
    (opts : CURL) (lines : list string) (w : worker) (P : CURL -> Prop) :
  P (ready (opts ++ curl (curl_thread_context w))) ->
  performs_on P w (outcome is_ct engine (configured opts lines w)).
Proof.
  intros HP. exists (transfer_on engine (configured opts lines w)).
  split; [reflexivity | exact HP].
Qed.

Lemma call_performs_on
    (curl_url_set : string -> option string) (engine : engine_t)
    (op : Url_cxx.operation) (w : worker) (P : CURL -> Prop) :
  P (ready (Url_cxx_spec.options_of curl_url_set op
              ++ curl (curl_thread_context w))) ->
  performs_on P w (Url_cxx.call curl_url_set engine op w).
Proof.
  intros HP. rewrite Url_cxx_facts.call_outcome.
  now apply outcome_performs_on.
Qed.

Ltac each_operation op :=
  destruct op as [u b hs|u hs|u hs|u b hs|u b hs|u f hs|u b hs];
  try (destruct b as [|b0 b]); destruct hs as [|x hs].

(** X3.  Every public operation performs one transfer, and after an
    inspectable outcome its response holds the status code the engine
    reports (as a 32-bit value), the effective URL it reports or an empty
    one when it reports none, one header entry per header line delivered,
    in order, and the body chunks delivered, in order.  The same holds of
    [get] in [url.cpp]. *)
Theorem response_populated_from_transfer :
  (forall curl_url_set engine op w,
     populated_from_transfer w (Url_cxx.call curl_url_set engine op w)) /\
  (forall engine u hs w,
     populated_from_transfer w (Url_cpp.get engine u hs w)).
Proof.
  split; intros.
  - rewrite Url_cxx_facts.call_outcome. apply outcome_populated.
  - rewrite Url_cpp_facts.get_outcome. apply outcome_populated.
Qed.

(** X4.  The response of every public operation converts to false when
    the transfer yields no response, and after an inspectable outcome with
    a response code that fits 32 bits it converts to true exactly when the
    code is in [100, 400): an HTTP error flagged by the engine gives a
    populated response that still converts to false.  The same holds of
    [get] in [url.cpp]. *)
Theorem success_predicate_follows_outcome :
  (forall curl_url_set engine op w,
     success_follows_outcome w (Url_cxx.call curl_url_set engine op w)) /\
  (forall engine u hs w,
     success_follows_outcome w (Url_cpp.get engine u hs w)).
Proof.
  split; intros.
  - rewrite Url_cxx_facts.call_outcome. apply outcome_success.
  - rewrite Url_cpp_facts.get_outcome. apply outcome_success.
Qed.

(** X5.  When the transfer of a public operation yields no response,
    [and_then] on the operation's response returns a value-initialised
    result and leaves the callable uninvoked, and [or_else] returns what
    its callable returns. *)
Theorem combinators_after_failed_transfer
    {St R : Type} `{ValueInit R}
    (curl_url_set : string -> option string) (engine : engine_t)
    (op : Url_cxx.operation) (w : worker)
    (f : response_t -> St -> R * St)
    (g : unit -> St -> response_t * St) (s : St) :
  exists p,
    performed (snd (Url_cxx.call curl_url_set engine op w))
    = performed w ++ [p] /\
    (inspectable (result (did p)) = false ->
     and_then f (fst (Url_cxx.call curl_url_set engine op w)) s
     = (value_init, s) /\
     or_else g (fst (Url_cxx.call curl_url_set engine op w)) s = g tt s).
Proof.
  rewrite Url_cxx_facts.call_outcome.
  eexists. split; [reflexivity|].
  unfold outcome. cbn [fst snd].
  intros ->. split; reflexivity.
Qed.

(** X6.  Every public operation invokes the engine with redirects
    followed, HTTP errors flagged, the fixed user agent (whatever header
    lines the caller supplies) and the two delivery callbacks and the body
    buffer installed, whatever was set on the handle before.  So does [get]
    of [url.cpp], whose URL is the caller's string as a C string. *)
Theorem common_options_always_set :
  (forall curl_url_set engine op w,
     performs_on
       (fun h =>
          getopt h CURLOPT_FOLLOWLOCATION = Some (val_long 1) /\
          getopt h CURLOPT_FAILONERROR = Some (val_long 1) /\
          getopt h CURLOPT_USERAGENT = Some (val_str "libcurl-agent/1.0") /\
          getopt h CURLOPT_WRITEFUNCTION = Some val_write_user_data /\
          getopt h CURLOPT_WRITEDATA = Some val_chunk /\
          getopt h CURLOPT_HEADERFUNCTION = Some val_header_callback)
       w (Url_cxx.call curl_url_set engine op w)) /\
  (forall engine u hs w,
     performs_on
       (fun h =>
          getopt h CURLOPT_URL = Some (val_str (c_str u)) /\
          getopt h CURLOPT_FOLLOWLOCATION = Some (val_long 1) /\
          getopt h CURLOPT_FAILONERROR = Some (val_long 1) /\
          getopt h CURLOPT_USERAGENT = Some (val_str "libcurl-agent/1.0") /\
          getopt h CURLOPT_WRITEFUNCTION = Some val_write_user_data /\
          getopt h CURLOPT_WRITEDATA = Some val_chunk /\
          getopt h CURLOPT_HEADERFUNCTION = Some val_header_callback)
       w (Url_cpp.get engine u hs w)).
Proof.
  split; intros.
  - apply call_performs_on. each_operation op; repeat split.
  - rewrite Url_cpp_facts.get_outcome. apply outcome_performs_on.
    destruct hs; repeat split.
Qed.

(** X7.  When the engine's URL parser accepts the URL handed to a public
    operation, the operation invokes the engine on the normalised URL the
    parser returns, not on the caller's string. *)
Theorem accepted_url_is_normalised
    (curl_url_set : string -> option string) (engine : engine_t)
    (op : Url_cxx.operation) (w : worker) (normalised : string) :
  curl_url_set (c_str (Url_cxx_spec.url_of op)) = Some normalised ->
  Url_cxx.encode_url curl_url_set (Url_cxx_spec.url_of op) = normalised /\
  performs_on
    (fun h => getopt h CURLOPT_URL = Some (val_str (c_str normalised)))
    w (Url_cxx.call curl_url_set engine op w).
Proof.
  intros Hok.
  assert (E : Url_cxx.encode_url curl_url_set (Url_cxx_spec.url_of op)
              = normalised)
    by (unfold Url_cxx.encode_url; now rewrite Hok).
  split; [exact E|].
  apply call_performs_on.
  change (getopt (ready ?h) CURLOPT_URL) with (getopt h CURLOPT_URL).
  rewrite getopt_app, Url_cxx_facts.options_of_URL, E. reflexivity.
Qed.

Lemma accepted_url_is_normalised_witness :
  Url_cxx.encode_url with_default_scheme "example.com" = "http://example.com"
  /\ performs_on
       (fun h => getopt h CURLOPT_URL = Some (val_str "http://example.com"))
       fresh_worker
       (Url_cxx.call with_default_scheme unreachable
          (Url_cxx.op_head "example.com" []) fresh_worker).
Proof.
  exact (accepted_url_is_normalised with_default_scheme unreachable
           (Url_cxx.op_head "example.com" []) fresh_worker
           "http://example.com" eq_refl).
Defined.

(* ================================================================== *)
(** * Further properties of the public operations *)
(* ================================================================== *)

(** X8.  [get] sets neither method nor payload: the engine is invoked with
    [CURLOPT_NOBODY], [CURLOPT_CUSTOMREQUEST], [CURLOPT_POSTFIELDS] and
    [CURLOPT_MIMEPOST] as they were on the handle before the call. *)
Theorem get_leaves_method_and_payload
    (curl_url_set : string -> option string) (engine : engine_t)
    (u : string) (hs : header_t) (w : worker) :
  let before := curl (curl_thread_context w) in
  performs_on
    (fun h =>
       getopt h CURLOPT_NOBODY = getopt before CURLOPT_NOBODY /\
       getopt h CURLOPT_CUSTOMREQUEST = getopt before CURLOPT_CUSTOMREQUEST /\
       getopt h CURLOPT_POSTFIELDS = getopt before CURLOPT_POSTFIELDS /\
       getopt h CURLOPT_MIMEPOST = getopt before CURLOPT_MIMEPOST)
    w (Url_cxx.get curl_url_set engine u hs w).
Proof.
  cbn zeta.
  apply (call_performs_on curl_url_set engine (Url_cxx.op_get u hs)).
  destruct hs; repeat split.
Qed.

(** X9.  [head] invokes the engine with [CURLOPT_NOBODY] set to 1 and
    with the custom method and the payloads as they were on the handle
    before the call. *)
Theorem head_suppresses_body
    (curl_url_set : string -> option string) (engine : engine_t)
    (u : string) (hs : header_t) (w : worker) :
  let before := curl (curl_thread_context w) in
  performs_on
    (fun h =>
       getopt h CURLOPT_NOBODY = Some (val_long 1) /\
       getopt h CURLOPT_CUSTOMREQUEST = getopt before CURLOPT_CUSTOMREQUEST /\
       getopt h CURLOPT_POSTFIELDS = getopt before CURLOPT_POSTFIELDS /\
       getopt h CURLOPT_MIMEPOST = getopt before CURLOPT_MIMEPOST)
    w (Url_cxx.head curl_url_set engine u hs w).
Proof.
  cbn zeta.
  apply (call_performs_on curl_url_set engine (Url_cxx.op_head u hs)).
  destruct hs; repeat split.
Qed.

(** X10.  [put], [patch] and [del] invoke the engine with the custom
    method "PUT", "PATCH" and "DELETE".  A non-empty body is attached
    through a pointer into a string that is local to the block that
    attaches it, so the engine is invoked with a payload pointer that
    dangles; an empty body attaches nothing, so that the payload option of
    an earlier call stays on the handle. *)
Theorem update_sets_method_and_body
    (curl_url_set : string -> option string) (engine : engine_t)
    (u body' : string) (hs : header_t) (w : worker) :
  let before := curl (curl_thread_context w) in
  performs_on (update_handle "PUT" body' before)
    w (Url_cxx.put curl_url_set engine u body' hs w) /\
  performs_on (update_handle "PATCH" body' before)
    w (Url_cxx.patch curl_url_set engine u body' hs w) /\
  performs_on (update_handle "DELETE" body' before)
    w (Url_cxx.del curl_url_set engine u body' hs w).
Proof.
  cbn zeta. split; [|split].
  - apply (call_performs_on curl_url_set engine (Url_cxx.op_put u body' hs)).
    destruct body', hs; repeat split.
  - apply (call_performs_on curl_url_set engine
             (Url_cxx.op_patch u body' hs)).
    destruct body', hs; repeat split.
  - apply (call_performs_on curl_url_set engine (Url_cxx.op_del u body' hs)).
    destruct body', hs; repeat split.
Qed.

(** X11.  [post] with a raw body always attaches the body as the payload,
    an empty one too (unlike [put], [patch] and [del]), and sets neither
    [CURLOPT_CUSTOMREQUEST] nor [CURLOPT_NOBODY] nor [CURLOPT_MIMEPOST]. *)
Theorem post_always_attaches_body
    (curl_url_set : string -> option string) (engine : engine_t)
    (u body' : string) (hs : header_t) (w : worker) :
  let before := curl (curl_thread_context w) in
  performs_on
    (fun h =>
       getopt h CURLOPT_POSTFIELDS = Some (val_str (c_str body')) /\
       getopt h CURLOPT_CUSTOMREQUEST = getopt before CURLOPT_CUSTOMREQUEST /\
       getopt h CURLOPT_NOBODY = getopt before CURLOPT_NOBODY /\
       getopt h CURLOPT_MIMEPOST = getopt before CURLOPT_MIMEPOST)
    w (Url_cxx.post curl_url_set engine u body' hs w).
Proof.
  cbn zeta.
  apply (call_performs_on curl_url_set engine (Url_cxx.op_post u body' hs)).
  destruct hs; repeat split.
Qed.

(** X12.  [post] with a form invokes the engine on a multipart body with
    one part per field, in the order of the fields, whose names and data
    are the fields' names and values as C strings; it leaves
    [CURLOPT_POSTFIELDS], [CURLOPT_CUSTOMREQUEST] and [CURLOPT_NOBODY] as
    they were. *)
Theorem post_form_builds_one_part_per_field
    (curl_url_set : string -> option string) (engine : engine_t)
    (u : string) (form : form_t) (hs : header_t) (w : worker) :
  let before := curl (curl_thread_context w) in
  performs_on
    (fun h =>
       (exists parts,
          getopt h CURLOPT_MIMEPOST = Some (val_mime parts) /\
          List.length parts = List.length form /\
          map fst parts = map (fun field => c_str (fst field)) form /\
          map snd parts = map (fun field => c_str (snd field)) form) /\
       getopt h CURLOPT_POSTFIELDS = getopt before CURLOPT_POSTFIELDS /\
       getopt h CURLOPT_CUSTOMREQUEST = getopt before CURLOPT_CUSTOMREQUEST /\
       getopt h CURLOPT_NOBODY = getopt before CURLOPT_NOBODY)
    w (Url_cxx.post_form curl_url_set engine u form hs w).
Proof.
  cbn zeta.
  apply (call_performs_on curl_url_set engine
           (Url_cxx.op_post_form u form hs)).
  split.
  - eexists. split; [destruct hs; reflexivity|].
    rewrite length_map, !map_map. cbn [fst snd]. repeat split.
  - destruct hs; repeat split.
Qed.

Lemma call_response_for
    (curl_url_set : string -> option string) (engine : engine_t)
    (op : Url_cxx.operation) (w : worker) :
  exists p,
    performed (snd (Url_cxx.call curl_url_set engine op w))
    = performed w ++ [p] /\
    fst (Url_cxx.call curl_url_set engine op w) = response_for p.
Proof.
  rewrite Url_cxx_facts.call_outcome.
  eexists. split; reflexivity.
Qed.

(** X13.  A client that calls public operations one after the other on a
    worker gets one response per call, and the worker performs one
    transfer per call, after those it had performed before: the n-th
    response is the one built from the n-th transfer. *)
Theorem calls_perform_one_transfer_each
    (curl_url_set : string -> option string) (engine : engine_t)
    (ops : list Url_cxx.operation) (w : worker) :
  exists ps,
    performed (snd (Url_cxx_spec.calls curl_url_set engine ops w))
    = performed w ++ ps /\
    fst (Url_cxx_spec.calls curl_url_set engine ops w) = map response_for ps /\
    List.length ps = List.length ops.
Proof.
  revert w. induction ops as [|op ops IH]; intros w.
  - exists []. cbn. now rewrite app_nil_r.
  - assert (E : Url_cxx_spec.calls curl_url_set engine (op :: ops) w
                = (fst (Url_cxx.call curl_url_set engine op w)
                     :: fst (Url_cxx_spec.calls curl_url_set engine ops
                               (snd (Url_cxx.call curl_url_set engine op w))),
                   snd (Url_cxx_spec.calls curl_url_set engine ops
                          (snd (Url_cxx.call curl_url_set engine op w))))).
    { cbn [Url_cxx_spec.calls]. unfold bind.
      destruct (Url_cxx.call curl_url_set engine op w) as [r w1].
      cbn [fst snd].
      now destruct (Url_cxx_spec.calls curl_url_set engine ops w1). }
    rewrite E. cbn [fst snd].
    destruct (call_response_for curl_url_set engine op w) as (p & Hp & Hr).
    destruct (IH (snd (Url_cxx.call curl_url_set engine op w)))
      as (ps & Hps & Hrs & Hlen).
    exists (p :: ps). split; [|split].
    + rewrite Hps, Hp, <- app_assoc. reflexivity.
    + cbn [map]. now rewrite Hr, Hrs.
    + cbn [List.length]. now rewrite Hlen.
Qed.

(** X14.  The engine reads the URL, the header lines and the raw body as
    C strings: a raw body with an embedded NUL is attached by [post] only
    up to that NUL, and the URL set on the handle and the header lines
    appended to the worker's list hold no NUL. *)
Theorem body_cut_at_embedded_NUL
    (curl_url_set : string -> option string) (engine : engine_t)
    (u a b : string) (hs : header_t) (w : worker) :
  NUL_free a ->
  performs_on
    (fun h => getopt h CURLOPT_POSTFIELDS = Some (val_str a) /\
              exists address,
                getopt h CURLOPT_URL = Some (val_str address) /\
                NUL_free address)
    w (Url_cxx.post curl_url_set engine u (a ++ String zero b) hs w) /\
  exists lines,
    header_chunk
      (curl_thread_context
         (snd (Url_cxx.post curl_url_set engine u (a ++ String zero b) hs w)))
    = header_chunk (curl_thread_context w) ++ lines /\
    List.length lines = List.length hs /\
    Forall NUL_free lines.
Proof.
  intros Ha. split.
  - apply (call_performs_on curl_url_set engine
             (Url_cxx.op_post u (a ++ String zero b) hs)).
    split.
    + rewrite <- (c_str_stops_at_NUL a b Ha) at 2. destruct hs; reflexivity.
    + eexists. split; [destruct hs; reflexivity | apply c_str_NUL_free].
  - exists (map c_str hs).
    change (Url_cxx.post curl_url_set engine u (a ++ String zero b) hs)
      with (Url_cxx.call curl_url_set engine
              (Url_cxx.op_post u (a ++ String zero b) hs)).
    rewrite Url_cxx_facts.call_outcome.
    split; [reflexivity|]. split; [apply length_map|].
    clear. induction hs; constructor; [apply c_str_NUL_free | assumption].
Qed.

Lemma body_cut_at_embedded_NUL_witness :
  performs_on
    (fun h => getopt h CURLOPT_POSTFIELDS = Some (val_str "a=1") /\
              exists address,
                getopt h CURLOPT_URL = Some (val_str address) /\
                NUL_free address)
    fresh_worker
    (Url_cxx.post with_default_scheme unreachable "example.com"
       ("a=1" ++ String zero "b=2") [] fresh_worker).
Proof.
  assert (Ha : NUL_free "a=1").
  { intros i. do 3 (destruct i as [|i]; [discriminate|]).
    destruct i; discriminate. }
  exact (proj1 (body_cut_at_embedded_NUL with_default_scheme
                  unreachable "example.com" "a=1" "b=2" []
                  fresh_worker Ha)).
Defined.

(* ================================================================== *)
(** * Further properties of the charset extraction *)
(* ================================================================== *)

(** X15.  The test that [request] of [url.cxx] hands to [find_if] accepts
    exactly the header lines that begin with [content-type:] in any mix of
    upper and lower case; the test of [url.cpp] accepts exactly the lines
    that begin with the lower-case [content-type:]. *)
Theorem is_content_type_ignores_case (header : string) :
  (Url_cxx.is_content_type header = true
   <-> exists name rest,
         header = (name ++ rest)%string /\
         transform_tolower name = "content-type:") /\
  (starts_with "content-type:" header = true
   <-> exists rest, header = ("content-type:" ++ rest)%string).
Proof.
  split; [|apply starts_with_iff].
  unfold Url_cxx.is_content_type. rewrite starts_with_iff. split.
  - intros [rest' H].
    exists (take 13 header), (drop 13 header).
    split; [now rewrite take_drop_append|].
    rewrite transform_tolower_take, H.
    apply (take_append_exact "content-type:" rest').
  - intros (name & rest & -> & Hname).
    exists (transform_tolower rest).
    now rewrite transform_tolower_append, Hname.
Qed.

Lemma find_all_false {A} (f : A -> bool) (l : list A) :
  (forall x, In x l -> f x = false) -> List.find f l = None.
Proof.
  induction l as [|a l IH]; intros H; cbn; [reflexivity|].
  rewrite (H a) by now left. apply IH. intros x Hx. apply H. now right.
Qed.

Lemma find_first_true {A} (f : A -> bool) (pre post : list A) (x : A) :
  (forall y, In y pre -> f y = false) -> f x = true ->
  List.find f (pre ++ x :: post) = Some x.
Proof.
  induction pre as [|a pre IH]; intros H Hx; cbn.
  - now rewrite Hx.
  - rewrite (H a) by now left. apply IH; [|assumption].
    intros y Hy. apply H. now right.
Qed.

Lemma encoding_response_for (p : performed_t) :
  encoding (response_for p)
  = match List.find Url_cxx.is_content_type (headers (response_for p)) with
    | Some content_type =>
        match charset_of content_type with
        | Some e => e
        | None => ""
        end
    | None => ""
    end.
Proof. unfold response_for. now destruct (inspectable _). Qed.

(** X16.  In the response of every public operation the encoding is
    empty when no header entry is a content-type line; otherwise it is read
    from the first content-type entry alone, whatever the later entries
    hold: it is empty when that entry has no [charset=], and when no
    semicolon follows the last [charset=] of that entry it is the text
    after that [charset=] up to the end of the entry. *)
Theorem encoding_from_first_content_type
    (curl_url_set : string -> option string) (engine : engine_t)
    (op : Url_cxx.operation) (w : worker) :
  let r := fst (Url_cxx.call curl_url_set engine op w) in
  ((forall h, In h (headers r) -> Url_cxx.is_content_type h = false) ->
   encoding r = "") /\
  (forall pre content_type post,
     headers r = pre ++ content_type :: post ->
     (forall h, In h pre -> Url_cxx.is_content_type h = false) ->
     Url_cxx.is_content_type content_type = true ->
     (rfind "charset=" content_type = None -> encoding r = "") /\
     (forall first,
        rfind "charset=" content_type = Some first ->
        find ";"%char first content_type = None ->
        encoding r = drop (first + 8) content_type)).
Proof.
  cbn zeta.
  destruct (call_response_for curl_url_set engine op w) as (p & _ & ->).
  rewrite encoding_response_for. split.
  - intros H. now rewrite find_all_false.
  - intros pre ct post Hh Hpre Hct.
    rewrite Hh, (find_first_true _ pre post ct Hpre Hct).
    unfold charset_of. split.
    + intros ->. reflexivity.
    + intros first -> ->. reflexivity.
Qed.

(* ================================================================== *)
(** * Further properties of the combinators *)
(* ================================================================== *)

(** X17.  A chain of two [or_else] returns the first successful response
    among the original one and the results of the fallbacks, tried in
    order, and invokes no fallback after it; when none is successful it
    returns the result of the last fallback. *)
Theorem or_else_chain_returns_first_success
    {St : Type} (r : response_t)
    (g1 g2 : unit -> St -> response_t * St) (s : St) :
  (let (r1, s1) := or_else g1 r s in or_else g2 r1 s1)
  = if to_bool r then (r, s)
    else if to_bool (fst (g1 tt s)) then g1 tt s
         else g2 tt (snd (g1 tt s)).
Proof.
  unfold or_else.
  destruct (to_bool r) eqn:E.
  - now rewrite E.
  - destruct (g1 tt s) as [r1 s1]. cbn [fst snd].
    now destruct (to_bool r1).
Qed.

(** X18.  A failed response goes through a chain of [and_then] without
    any callable being invoked: the first [and_then] returns the
    value-initialised response, which is itself a failure, so the second
    returns a value-initialised result. *)
Theorem and_then_chain_short_circuits
    {St R : Type} `{ValueInit R} (r : response_t)
    (f : response_t -> St -> response_t * St)
    (g : response_t -> St -> R * St) (s : St) :
  to_bool r = false ->
  (let (r1, s1) := and_then f r s in and_then g r1 s1) = (value_init, s).
Proof.
  intros Hr. unfold and_then. rewrite Hr. reflexivity.
Qed.

Lemma and_then_chain_short_circuits_witness :
  let visit := fun (r : response_t) (n : nat) => (r, S n) in
  let measure := fun (r : response_t) (n : nat) =>
                   (String.length (body r), S n) in
  (let (r1, s1) := and_then visit default_response 0 in
   and_then measure r1 s1) = (0, 0).
Proof.
  intros visit measure.
  exact (and_then_chain_short_circuits default_response visit measure 0
           eq_refl).
Defined.
